(** * react-native-animation: animation hooks and preset tables

    A shallow embedding of the hooks of the repository and of the small
    part of the host framework they talk to:

    - JavaScript numbers are IEEE 754 doubles, embedded as Rocq's primitive
      floats ([PrimFloat.float]); [Object.is] on numbers is Leibniz
      equality of floats, ToBoolean is "neither zero nor NaN";
    - an [Animated.Value] is a named mutable cell of a per-hook store; the
      handles a hook returns are the names, stable across renders (useRef);
    - [Animated.timing], [Animated.spring], [Animated.sequence] and
      [Animated.parallel] build a composition tree, [.start()] hands it to
      the engine: the body of a hook's effect is the list of the engine
      calls it makes, of which [setValue] writes its cell at once;
    - [useEffect] runs its effect on mount and on every later render whose
      dependency array differs (by [Object.is], position by position) from
      the one of the previous render. *)

From Stdlib Require Import Bool List Arith NArith Lia Floats.
Import ListNotations.

Set Implicit Arguments.
Set Warnings "-inexact-float,-register-all".

(** ** JavaScript values *)

Module JS.

Definition number : Type := PrimFloat.float.

(** [Object.is] on two numbers: NaN is NaN, +0 is not -0. *)
Definition same_value (x y : number) : bool := PrimFloat.Leibniz.eqb x y.

(** ToBoolean on a number: +0, -0 and NaN are falsy. *)
Definition truthy (x : number) : bool :=
  negb (PrimFloat.eqb x 0%float || PrimFloat.is_nan x).

(** [x || d] where [x] is a possibly undefined number. *)
Definition or_else (x : option number) (d : number) : number :=
  match x with
  | Some v => if truthy v then v else d
  | None => d
  end.

(** [x ?? d] and the default of a destructured or optional parameter:
    only [undefined] is replaced. *)
Definition nullish {A : Type} (x : option A) (d : A) : A :=
  match x with
  | Some v => v
  | None => d
  end.

End JS.

(** ** The Animated engine, as far as the hooks use it *)

Module Animated.
Import JS.

(** Easing functions are closures of the host library; they are kept
    symbolic, a caller's own function apart. *)
Inductive EasingFn : Type :=
| quad
| cubic
| ease
| linear
| out (f : EasingFn)
| custom (f : number -> number).

Record TimingConfig : Type := mkTiming
  { toValue : number;
    duration : number;
    easing : option EasingFn;
    useNativeDriver : bool }.

Record SpringConfig : Type := mkSpring
  { s_toValue : number;
    tension : number;
    friction : number;
    s_useNativeDriver : bool }.

(** [V] names the animated values of one hook. *)
Inductive Composition (V : Type) : Type :=
| timing (v : V) (cfg : TimingConfig)
| spring (v : V) (cfg : SpringConfig)
| sequence (cs : list (Composition V))
| parallel (cs : list (Composition V)).

Arguments timing {V} v cfg.
Arguments spring {V} v cfg.
Arguments sequence {V} cs.
Arguments parallel {V} cs.

(** What a hook asks of the engine, in program order. *)
Inductive Call (V : Type) : Type :=
| setValue (v : V) (x : number)
| start (c : Composition V).

Arguments setValue {V} v x.
Arguments start {V} c.

Definition is_start {V : Type} (c : Call V) : bool :=
  match c with
  | start _ => true
  | setValue _ _ => false
  end.

(** Modelled from the spec: the ordering contract of the engine, which is
    a library of the host and not part of the repository (spec, section 5
    and glossary).  [done v] says that the engine has reported the
    completion of the animation driving [v].  A composition has settled
    when all its leaves have. *)
Fixpoint settled {V : Type} (done : V -> bool) (c : Composition V) : bool :=
  match c with
  | timing v _ => done v
  | spring v _ => done v
  | sequence cs => forallb (settled done) cs
  | parallel cs => forallb (settled done) cs
  end.

(** Modelled from the spec: the animations the engine has been made to
    start so far, once [start] was called on the composition.  A parallel
    group issues all its members in the same tick; a sequence issues a
    member only when every member before it has settled. *)
Fixpoint issued {V : Type} (done : V -> bool) (c : Composition V) : list V :=
  match c with
  | timing v _ => [v]
  | spring v _ => [v]
  | parallel cs => flat_map (issued done) cs
  | sequence cs =>
      (fix chain (l : list (Composition V)) : list V :=
         match l with
         | [] => []
         | c0 :: l' =>
             issued done c0 ++ (if settled done c0 then chain l' else [])
         end) cs
  end.

End Animated.

(** ** React: refs, dependency arrays and effects *)

Module React.
Import JS Animated.

(** An entry of a dependency array: a boolean, a number, or the handle of
    an animated value (an object, compared by identity). *)
Inductive Dep (V : Type) : Type :=
| dep_bool (b : bool)
| dep_num (x : number)
| dep_ref (v : V).

Arguments dep_bool {V} b.
Arguments dep_num {V} x.
Arguments dep_ref {V} v.

Definition object_is {V : Type} (veq : V -> V -> bool) (a b : Dep V) : bool :=
  match a, b with
  | dep_bool x, dep_bool y => Bool.eqb x y
  | dep_num x, dep_num y => same_value x y
  | dep_ref x, dep_ref y => veq x y
  | _, _ => false
  end.

(** [areHookInputsEqual]: the arrays of two renders of one hook have the
    same length; they are equal when every position is. *)
Fixpoint areHookInputsEqual {V : Type} (veq : V -> V -> bool)
    (next prev : list (Dep V)) : bool :=
  match next, prev with
  | [], [] => true
  | a :: next', b :: prev' =>
      object_is veq a b && areHookInputsEqual veq next' prev'
  | _, _ => false
  end.

(** The shape the three Animated hooks share: [useRef(new Animated.Value
    (..))] for each value of [V], then one [useEffect] whose body only
    calls the engine.  [P] is the type of the hook's arguments. *)
Record Hook (V P : Type) : Type := mkHook
  { ref_eqb : V -> V -> bool;
    initial : P -> V -> number;
    dependencies : P -> list (Dep V);
    effect : P -> list (Call V) }.

(** What React keeps for one mounted hook: the cells behind the refs and
    the dependency array of the last render. *)
Record Instance (V : Type) : Type := mkInstance
  { store : V -> number;
    last_deps : list (Dep V) }.

Section Lifecycle.
Variables V P : Type.
Variable h : Hook V P.

Definition write (st : V -> number) (v : V) (x : number) : V -> number :=
  fun w => if ref_eqb h w v then x else st w.

(** What a call does to the cells before the effect returns: [setValue]
    writes; [start] only hands the composition to the engine, the cells
    move on later frames. *)
Definition apply_call (st : V -> number) (c : Call V) : V -> number :=
  match c with
  | setValue v x => write st v x
  | start _ => st
  end.

Definition run_effect (p : P) (st : V -> number) : V -> number :=
  fold_left apply_call (effect h p) st.

(** First render: the refs are created, then the effect runs. *)
Definition mount (p : P) : Instance V * list (Call V) :=
  (mkInstance (run_effect p (initial h p)) (dependencies h p), effect h p).

(** A later render: [useRef] returns the cells of the first render; the
    effect runs again when the dependency array changed. *)
Definition rerender (p : P) (i : Instance V) : Instance V * list (Call V) :=
  if areHookInputsEqual (ref_eqb h) (dependencies h p) (last_deps i)
  then (mkInstance (store i) (dependencies h p), [])
  else (mkInstance (run_effect p (store i)) (dependencies h p), effect h p).

(** Re-renders in a row, with the calls each of them made. *)
Fixpoint rerenders (ps : list P) (i : Instance V)
    : Instance V * list (list (Call V)) :=
  match ps with
  | [] => (i, [])
  | p :: ps' =>
      let i1 := rerender p i in
      let i2 := rerenders ps' (fst i1) in
      (fst i2, snd i1 :: snd i2)
  end.

(** One mounted component: the first render and the later ones. *)
Definition renders (p : P) (ps : list P)
    : Instance V * list (list (Call V)) :=
  let i1 := mount p in
  let i2 := rerenders ps (fst i1) in
  (fst i2, snd i1 :: snd i2).

End Lifecycle.

End React.

(** ** src/hooks/useStaggeredEntrance.ts *)

Module StaggeredEntrance.
Import JS Animated React.

Inductive Scalar : Type :=
| iconScale
| iconOpacity
| titleOpacity
| titleTranslateY
| descriptionOpacity
| descriptionTranslateY
| featuresOpacity
| featuresTranslateY.

Definition scalar_eqb (a b : Scalar) : bool :=
  match a, b with
  | iconScale, iconScale
  | iconOpacity, iconOpacity
  | titleOpacity, titleOpacity
  | titleTranslateY, titleTranslateY
  | descriptionOpacity, descriptionOpacity
  | descriptionTranslateY, descriptionTranslateY
  | featuresOpacity, featuresOpacity
  | featuresTranslateY, featuresTranslateY => true
  | _, _ => false
  end.

(** UseStaggeredEntranceOptions: every field is optional. *)
Record Options : Type := mkOptions
  { delay : option number;
    duration : option number;
    translateYOffset : option number;
    enabled : option bool }.

Definition with_delay (d : option number) (o : Options) : Options :=
  mkOptions d (duration o) (translateYOffset o) (enabled o).

(** Lines 71-78: the arguments of the eight [useRef]. *)
Definition initial_values (o : Options) (v : Scalar) : number :=
  let translateYOffset := nullish (translateYOffset o) 30%float in
  match v with
  | iconScale => 0%float
  | iconOpacity => 0%float
  | titleOpacity => 0%float
  | titleTranslateY => translateYOffset
  | descriptionOpacity => 0%float
  | descriptionTranslateY => translateYOffset
  | featuresOpacity => 0%float
  | featuresTranslateY => translateYOffset
  end.

(** Lines 153-166. *)
Definition deps (o : Options) : list (Dep Scalar) :=
  [ dep_bool (nullish (enabled o) true);
    dep_num (nullish (delay o) 100%float);
    dep_num (nullish (duration o) 600%float);
    dep_num (nullish (translateYOffset o) 30%float);
    dep_ref iconScale;
    dep_ref iconOpacity;
    dep_ref titleOpacity;
    dep_ref titleTranslateY;
    dep_ref descriptionOpacity;
    dep_ref descriptionTranslateY;
    dep_ref featuresOpacity;
    dep_ref featuresTranslateY ].

(** The staggered sequence of lines 95-152. *)
Definition entrance (duration : number) : Composition Scalar :=
  sequence
    [ parallel
        [ spring iconScale (mkSpring 1%float 50%float 7%float true);
          timing iconOpacity
            (mkTiming 1%float (PrimFloat.mul duration 0.8%float) None true) ];
      parallel
        [ timing titleOpacity (mkTiming 1%float duration None true);
          spring titleTranslateY (mkSpring 0%float 50%float 8%float true) ];
      parallel
        [ timing descriptionOpacity (mkTiming 1%float duration None true);
          spring descriptionTranslateY
            (mkSpring 0%float 50%float 8%float true) ];
      parallel
        [ timing featuresOpacity (mkTiming 1%float duration None true);
          spring featuresTranslateY
            (mkSpring 0%float 50%float 8%float true) ] ].

(** The calls of the short-circuit path, lines 83-90. *)
Definition final_values : list (Call Scalar) :=
  [ setValue iconScale 1%float;
    setValue iconOpacity 1%float;
    setValue titleOpacity 1%float;
    setValue titleTranslateY 0%float;
    setValue descriptionOpacity 1%float;
    setValue descriptionTranslateY 0%float;
    setValue featuresOpacity 1%float;
    setValue featuresTranslateY 0%float ].

(** The body of the effect, lines 80-152. *)
Definition effect_body (o : Options) : list (Call Scalar) :=
  let duration := nullish (duration o) 600%float in
  let enabled := nullish (enabled o) true in
  if negb enabled then final_values
  else [ start (entrance duration) ].

Definition useStaggeredEntrance : Hook Scalar Options :=
  mkHook scalar_eqb initial_values deps effect_body.

(** The handles the hook returns, in declared order, read now. *)
Definition read_all (st : Scalar -> number) : list number :=
  map st
    [ iconScale; iconOpacity; titleOpacity; titleTranslateY;
      descriptionOpacity; descriptionTranslateY;
      featuresOpacity; featuresTranslateY ].

End StaggeredEntrance.

(** ** src/hooks/useBottomSheetAnimation.ts and its compiled copy
    lib/hooks/useBottomSheetAnimation.js (the same statements) *)

Module BottomSheet.
Import JS Animated React.

Inductive Scalar : Type :=
| slideAnim
| backdropOpacity.

Definition scalar_eqb (a b : Scalar) : bool :=
  match a, b with
  | slideAnim, slideAnim
  | backdropOpacity, backdropOpacity => true
  | _, _ => false
  end.

(** UseBottomSheetAnimationOptions. *)
Record Options : Type := mkOptions
  { duration : option number;
    closeDuration : option number }.

(** The arguments of the hook: [visible] and the options. *)
Definition Props : Type := (bool * Options)%type.

Section Host.
(** [Dimensions.get('window').height], read once when the module loads. *)
Variable SCREEN_HEIGHT : number.

Definition initial_values (_ : Props) (v : Scalar) : number :=
  match v with
  | slideAnim => SCREEN_HEIGHT
  | backdropOpacity => 0%float
  end.

Definition deps (p : Props) : list (Dep Scalar) :=
  let (visible, o) := p in
  [ dep_bool visible;
    dep_num (nullish (duration o) 300%float);
    dep_num (nullish (closeDuration o) 250%float);
    dep_ref slideAnim;
    dep_ref backdropOpacity ].

(** The parallel pair both branches build. *)
Definition pair (slideTo backdropTo ms : number) : Composition Scalar :=
  parallel
    [ timing slideAnim (mkTiming slideTo ms None true);
      timing backdropOpacity (mkTiming backdropTo ms None true) ].

Definition effect_body (p : Props) : list (Call Scalar) :=
  let (visible, o) := p in
  let duration := nullish (duration o) 300%float in
  let closeDuration := nullish (closeDuration o) 250%float in
  if visible
  then [ start (pair 0%float 1%float duration) ]
  else [ start (pair SCREEN_HEIGHT 0%float closeDuration) ].

Definition useBottomSheetAnimation : Hook Scalar Props :=
  mkHook scalar_eqb initial_values deps effect_body.

End Host.

End BottomSheet.

(** ** src/hooks/useSplashAnimation.ts *)

Module Splash.
Import JS Animated React.

Inductive Scalar : Type :=
| fadeAnim
| scaleAnim
| slideAnim.

Definition scalar_eqb (a b : Scalar) : bool :=
  match a, b with
  | fadeAnim, fadeAnim
  | scaleAnim, scaleAnim
  | slideAnim, slideAnim => true
  | _, _ => false
  end.

(** UseSplashAnimationOptions. *)
Record Options : Type := mkOptions
  { fadeDuration : option number;
    springTension : option number;
    springFriction : option number;
    slideDuration : option number;
    slideOffset : option number;
    enabled : option bool }.

(** Lines 77-79. *)
Definition initial_values (o : Options) (v : Scalar) : number :=
  match v with
  | fadeAnim => 0%float
  | scaleAnim => 0.8%float
  | slideAnim => nullish (slideOffset o) 50%float
  end.

(** Lines 107-117. *)
Definition deps (o : Options) : list (Dep Scalar) :=
  [ dep_bool (nullish (enabled o) true);
    dep_num (nullish (fadeDuration o) 1000%float);
    dep_num (nullish (springTension o) 100%float);
    dep_num (nullish (springFriction o) 8%float);
    dep_num (nullish (slideDuration o) 800%float);
    dep_num (nullish (slideOffset o) 50%float);
    dep_ref fadeAnim;
    dep_ref scaleAnim;
    dep_ref slideAnim ].

(** Lines 89-106. *)
Definition splash (fadeDuration springTension springFriction slideDuration
    : number) : Composition Scalar :=
  parallel
    [ timing fadeAnim (mkTiming 1%float fadeDuration None true);
      spring scaleAnim (mkSpring 1%float springTension springFriction true);
      timing slideAnim (mkTiming 0%float slideDuration None true) ].

(** Lines 83-85. *)
Definition final_values : list (Call Scalar) :=
  [ setValue fadeAnim 1%float;
    setValue scaleAnim 1%float;
    setValue slideAnim 0%float ].

(** The body of the effect, lines 81-106. *)
Definition effect_body (o : Options) : list (Call Scalar) :=
  let fadeDuration := nullish (fadeDuration o) 1000%float in
  let springTension := nullish (springTension o) 100%float in
  let springFriction := nullish (springFriction o) 8%float in
  let slideDuration := nullish (slideDuration o) 800%float in
  let enabled := nullish (enabled o) true in
  if negb enabled then final_values
  else [ start (splash fadeDuration springTension springFriction
                  slideDuration) ].

Definition useSplashAnimation : Hook Scalar Options :=
  mkHook scalar_eqb initial_values deps effect_body.

Definition read_all (st : Scalar -> number) : list number :=
  map st [ fadeAnim; scaleAnim; slideAnim ].

End Splash.

(** ** lib/utils/animationPresets.js *)

Module Presets.
Import JS Animated.

(** AnimationTimingConfig of animationPresets.d.ts: [duration] is
    required, [easing] and [useNativeDriver] are optional. *)
Record AnimationTimingConfig : Type := mkTimingPreset
  { duration : number;
    easing : option EasingFn;
    useNativeDriver : option bool }.

Record AnimationSpringConfig : Type := mkSpringPreset
  { tension : number;
    friction : number;
    s_useNativeDriver : option bool }.

(** The entries of [AnimationPresets]. *)
Definition fast : AnimationTimingConfig :=
  mkTimingPreset 200%float (Some (out quad)) (Some true).

Definition normal : AnimationTimingConfig :=
  mkTimingPreset 300%float (Some (out quad)) (Some true).

Definition slow : AnimationTimingConfig :=
  mkTimingPreset 500%float (Some (out quad)) (Some true).

Definition spring : AnimationSpringConfig :=
  mkSpringPreset 100%float 8%float (Some true).

Definition springGentle : AnimationSpringConfig :=
  mkSpringPreset 50%float 7%float (Some true).

(** [preset] is [None] when the argument is left out (or undefined): the
    default parameter value is then used. *)
Definition createTimingAnimation {V : Type} (value : V) (toValue : number)
    (preset : option AnimationTimingConfig) : Composition V :=
  let preset := nullish preset normal in
  timing value
    (mkTiming toValue (duration preset) (easing preset)
       (nullish (useNativeDriver preset) true)).

Definition createSpringAnimation {V : Type} (value : V) (toValue : number)
    (preset : option AnimationSpringConfig) : Composition V :=
  let preset := nullish preset spring in
  Animated.spring value
    (mkSpring toValue (tension preset) (friction preset)
       (nullish (s_useNativeDriver preset) true)).

End Presets.

(** ** src/presentation/hooks/useReanimatedReady.ts

    The repository holds three copies of the hook, which differ in the
    delay and in the number of nested animation frames only. *)

Module ReanimatedReady.

(** The closures the hook creates: each is a single statement, either
    [setIsReady(b)] or [requestAnimationFrame(k)]. *)
Inductive Callback : Type :=
| setIsReady (b : bool)
| requestAnimationFrame (k : Callback).

Record Timer : Type := mkTimer
  { timer_id : nat;
    due : N;
    callback : Callback }.

(** The host's timers and frame queue, and the component that observes
    the flag.  [flips] records every call of [setIsReady], with whether
    the component was still mounted at the call. *)
Record World : Type := mkWorld
  { now : N;
    timers : list Timer;
    next_timer : nat;
    frame_queue : list Callback;
    mounted : bool;
    isReady : bool;
    cleanup : option nat;
    flips : list bool }.

(** A copy of the hook: the delay of [setTimeout] and the closure passed
    to it. *)
Record Copy : Type := mkCopy
  { delay : N;
    on_timeout : Callback }.

(** First copy in useReanimatedReady.ts: 500 ms, three frames. *)
Definition useReanimatedReady : Copy :=
  mkCopy 500
    (requestAnimationFrame
       (requestAnimationFrame
          (requestAnimationFrame (setIsReady true)))).

(** Second copy in useReanimatedReady.ts: 1000 ms, five frames. *)
Definition useReanimatedReady_1000 : Copy :=
  mkCopy 1000
    (requestAnimationFrame
       (requestAnimationFrame
          (requestAnimationFrame
             (requestAnimationFrame
                (requestAnimationFrame (setIsReady true)))))).

(** The copy with 800 ms and four frames. *)
Definition useReanimatedReady_800 : Copy :=
  mkCopy 800
    (requestAnimationFrame
       (requestAnimationFrame
          (requestAnimationFrame
             (requestAnimationFrame (setIsReady true))))).

Definition copies : list Copy :=
  [ useReanimatedReady; useReanimatedReady_1000; useReanimatedReady_800 ].

(** Running one closure.  React drops a state update of a component that
    is no longer mounted; the call itself still happens. *)
Definition invoke (w : World) (cb : Callback) : World :=
  match cb with
  | setIsReady b =>
      mkWorld (now w) (timers w) (next_timer w) (frame_queue w) (mounted w)
        (if mounted w then b else isReady w) (cleanup w)
        (flips w ++ [mounted w])
  | requestAnimationFrame k =>
      mkWorld (now w) (timers w) (next_timer w) (frame_queue w ++ [k])
        (mounted w) (isReady w) (cleanup w) (flips w)
  end.

Definition setTimeout (cb : Callback) (ms : N) (w : World) : nat * World :=
  (next_timer w,
   mkWorld (now w) (timers w ++ [mkTimer (next_timer w) (now w + ms) cb])
     (S (next_timer w)) (frame_queue w) (mounted w) (isReady w) (cleanup w)
     (flips w)).

Definition clearTimeout (id : nat) (w : World) : World :=
  mkWorld (now w)
    (filter (fun t => negb (Nat.eqb (timer_id t) id)) (timers w))
    (next_timer w) (frame_queue w) (mounted w) (isReady w) (cleanup w)
    (flips w).

(** Mounting: [useState(false)], then the effect sets the timer and
    returns the cleanup that clears it. *)
Definition mount (c : Copy) : World :=
  let w0 := mkWorld 0 [] 0 [] true false None [] in
  let (timer, w1) := setTimeout (on_timeout c) (delay c) w0 in
  mkWorld (now w1) (timers w1) (next_timer w1) (frame_queue w1) (mounted w1)
    (isReady w1) (Some timer) (flips w1).

Inductive Event : Type :=
| elapse (ms : N)
| frame
| unmount.

Definition is_due (t : N) (x : Timer) : bool := N.leb (due x) t.

Definition step (w : World) (e : Event) : World :=
  match e with
  | elapse ms =>
      let t := (now w + ms)%N in
      let fired := filter (is_due t) (timers w) in
      let waiting := filter (fun x => negb (is_due t x)) (timers w) in
      fold_left invoke (map callback fired)
        (mkWorld t waiting (next_timer w) (frame_queue w) (mounted w)
           (isReady w) (cleanup w) (flips w))
  | frame =>
      fold_left invoke (frame_queue w)
        (mkWorld (now w) (timers w) (next_timer w) [] (mounted w)
           (isReady w) (cleanup w) (flips w))
  | unmount =>
      if mounted w then
        let w' := match cleanup w with
                  | Some timer => clearTimeout timer w
                  | None => w
                  end in
        mkWorld (now w') (timers w') (next_timer w') (frame_queue w') false
          (isReady w') None (flips w')
      else w
  end.

Definition run (es : list Event) (w : World) : World := fold_left step es w.

(** Measures of a history. *)
Definition elapsed (es : list Event) : N :=
  fold_right (fun e t => match e with elapse ms => (ms + t)%N | _ => t end)
    0%N es.

Definition frames (es : list Event) : nat :=
  length (filter (fun e => match e with frame => true | _ => false end) es).

(** The number of frames a closure still waits for. *)
Fixpoint depth (cb : Callback) : nat :=
  match cb with
  | setIsReady _ => 0
  | requestAnimationFrame k => S (depth k)
  end.

(** The value a closure finally passes to [setIsReady]. *)
Fixpoint final (cb : Callback) : bool :=
  match cb with
  | setIsReady b => b
  | requestAnimationFrame k => final k
  end.

(** The closures that are still to run: those of the timers and those of
    the frame queue. *)
Definition pending (w : World) : list Callback :=
  map callback (timers w) ++ frame_queue w.

(** The gate of a copy [c] after [f] frames: timers are the copy's own;
    a closure waits in the frame queue only once the delay has passed, and
    the frames gone by and the frames it still asks for add up to those of
    the copy; the flag is up only after the delay and all the frames. *)
Definition on_schedule (c : Copy) (f : nat) (w : World) : Prop :=
  (forall t, In t (timers w) ->
     (delay c <= due t)%N /\ depth (on_timeout c) <= depth (callback t) + f)
  /\ (forall k, In k (frame_queue w) ->
        (delay c <= now w)%N /\ depth (on_timeout c) <= S (depth k + f))
  /\ (isReady w = true ->
        (delay c <= now w)%N /\ depth (on_timeout c) <= f).

End ReanimatedReady.

(** ** src/presentation/hooks/useAnimation.ts, with the constants and
    the timing table of src/domain/entities/Animation.ts *)

Module UseAnimation.
Import JS.

Inductive AnimationPreset : Type :=
| FADE_IN
| FADE_OUT
| SLIDE_IN_UP
| SLIDE_IN_DOWN
| SLIDE_IN_LEFT
| SLIDE_IN_RIGHT
| SCALE_IN
| SCALE_OUT
| BOUNCE
| SHAKE.

(** ANIMATION_CONSTANTS.DURATION *)
Module DURATION.
Definition INSTANT : number := 0%float.
Definition FAST : number := 200%float.
Definition NORMAL : number := 300%float.
Definition SLOW : number := 500%float.
Definition VERY_SLOW : number := 1000%float.
End DURATION.

(** AnimationTimingConfig: the engine's timing options, of which the hook
    reads [duration] only. *)
Record AnimationTimingConfig : Type := mkConfig
  { duration : option number;
    easing : option Animated.EasingFn }.

(** AnimationUtils.getTimingConfig *)
Definition getTimingConfig (preset : AnimationPreset)
    : AnimationTimingConfig :=
  match preset with
  | FADE_IN => mkConfig (Some DURATION.NORMAL) None
  | FADE_OUT => mkConfig (Some DURATION.NORMAL) None
  | SLIDE_IN_UP => mkConfig (Some DURATION.NORMAL) None
  | SLIDE_IN_DOWN => mkConfig (Some DURATION.NORMAL) None
  | SLIDE_IN_LEFT => mkConfig (Some DURATION.NORMAL) None
  | SLIDE_IN_RIGHT => mkConfig (Some DURATION.NORMAL) None
  | SCALE_IN => mkConfig (Some DURATION.FAST) None
  | SCALE_OUT => mkConfig (Some DURATION.FAST) None
  | BOUNCE => mkConfig (Some DURATION.SLOW) None
  | SHAKE => mkConfig (Some DURATION.FAST) None
  end.

(** The shared values of the hook. *)
Inductive SharedValue : Type :=
| opacity
| translateY
| translateX
| scale
| rotate.

(** [withTiming(target, {duration, easing})] *)
Record WithTiming : Type := withTiming
  { target : number;
    wt_duration : number;
    wt_easing : Animated.EasingFn }.

(** An assignment to [sv.value]: a plain number, or an animation, which
    the engine then runs. *)
Inductive Assignment : Type :=
| assign (sv : SharedValue) (x : number)
| animate (sv : SharedValue) (a : WithTiming).

(** [config || AnimationUtils.getTimingConfig(preset)]: an object is
    truthy, so only a missing config is replaced. *)
Definition config_or (config : option AnimationTimingConfig)
    (preset : AnimationPreset) : AnimationTimingConfig :=
  match config with
  | Some c => c
  | None => getTimingConfig preset
  end.

Definition fadeIn (config : option AnimationTimingConfig)
    : list Assignment :=
  let timing := config_or config FADE_IN in
  [ animate opacity
      (withTiming 1%float (or_else (duration timing) DURATION.NORMAL)
         Animated.ease) ].

Definition fadeOut (config : option AnimationTimingConfig)
    : list Assignment :=
  let timing := config_or config FADE_OUT in
  [ animate opacity
      (withTiming 0%float (or_else (duration timing) DURATION.NORMAL)
         Animated.ease) ].

Definition slideInUp (distance : option number)
    (config : option AnimationTimingConfig) : list Assignment :=
  let distance := nullish distance 100%float in
  let timing := config_or config SLIDE_IN_UP in
  [ assign translateY distance;
    animate translateY
      (withTiming 0%float (or_else (duration timing) DURATION.NORMAL)
         (Animated.out Animated.cubic)) ].

Definition slideInDown (distance : option number)
    (config : option AnimationTimingConfig) : list Assignment :=
  let distance := nullish distance 100%float in
  let timing := config_or config SLIDE_IN_DOWN in
  [ assign translateY (PrimFloat.opp distance);
    animate translateY
      (withTiming 0%float (or_else (duration timing) DURATION.NORMAL)
         (Animated.out Animated.cubic)) ].

Definition slideInLeft (distance : option number)
    (config : option AnimationTimingConfig) : list Assignment :=
  let distance := nullish distance 100%float in
  let timing := config_or config SLIDE_IN_LEFT in
  [ assign translateX (PrimFloat.opp distance);
    animate translateX
      (withTiming 0%float (or_else (duration timing) DURATION.NORMAL)
         (Animated.out Animated.cubic)) ].

Definition slideInRight (distance : option number)
    (config : option AnimationTimingConfig) : list Assignment :=
  let distance := nullish distance 100%float in
  let timing := config_or config SLIDE_IN_RIGHT in
  [ assign translateX distance;
    animate translateX
      (withTiming 0%float (or_else (duration timing) DURATION.NORMAL)
         (Animated.out Animated.cubic)) ].

(** The six transitions that take a timing config, applied to one
    distance (where they take one) and one config. *)
Definition timed_transitions (distance : option number)
    (config : option AnimationTimingConfig) : list (list Assignment) :=
  [ fadeIn config; fadeOut config;
    slideInUp distance config; slideInDown distance config;
    slideInLeft distance config; slideInRight distance config ].

(** The durations of the animations among some assignments. *)
Definition durations (l : list Assignment) : list number :=
  flat_map (fun a => match a with
                     | animate _ t => [wt_duration t]
                     | assign _ _ => []
                     end) l.

End UseAnimation.

(** ** States of the readiness gate before the timer has fired *)

Module GateStates.
Import ReanimatedReady.

(** Nothing has happened yet: the flag is down, the setter was not called
    and no frame was asked for; the timer of the copy is either still
    waiting, with the cleanup of a mounted component holding its id, or
    it has been cleared. *)
Definition untouched (c : Copy) (w : World) : Prop :=
  flips w = [] /\ isReady w = false /\ frame_queue w = []
  /\ (timers w = []
      \/ exists id,
           timers w = [ mkTimer id (delay c) (on_timeout c) ]
           /\ mounted w = true /\ cleanup w = Some id).

End GateStates.

(** ** src/utils/animationPresets.ts, the source of which
    lib/utils/animationPresets.js is the build

    The two factories spread the preset into the config instead of
    copying its fields one by one. *)

Module PresetsSource.
Import JS Animated.

(** [{ toValue, ...preset }] for a timing preset: [useNativeDriver] is in
    the object only when the preset has it. *)
Record SpreadTiming : Type := mkSpreadTiming
  { toValue : number;
    duration : number;
    easing : option EasingFn;
    useNativeDriver : option bool }.

(** [{ toValue, ...preset }] for a spring preset. *)
Record SpreadSpring : Type := mkSpreadSpring
  { s_toValue : number;
    tension : number;
    friction : number;
    s_useNativeDriver : option bool }.

(** [Animated.timing(value, { toValue, ...preset })]: the value and the
    config handed to the engine. *)
Definition createTimingAnimation {V : Type} (value : V) (toValue : number)
    (preset : option Presets.AnimationTimingConfig) : V * SpreadTiming :=
  let preset := nullish preset Presets.normal in
  (value,
   mkSpreadTiming toValue (Presets.duration preset) (Presets.easing preset)
     (Presets.useNativeDriver preset)).

(** [Animated.spring(value, { toValue, ...preset })] *)
Definition createSpringAnimation {V : Type} (value : V) (toValue : number)
    (preset : option Presets.AnimationSpringConfig) : V * SpreadSpring :=
  let preset := nullish preset Presets.spring in
  (value,
   mkSpreadSpring toValue (Presets.tension preset) (Presets.friction preset)
     (Presets.s_useNativeDriver preset)).

End PresetsSource.

(** ** The animation objects of the worklet engine *)

Module Worklet.
Import JS.

(** AnimationSpringConfig of Animation.ts: every field is optional. *)
Record AnimationSpringConfig : Type := mkSpringConfig
  { damping : option number;
    stiffness : option number;
    mass : option number }.

(** [withSpring(toValue, config)], [withSequence(...)] as the hooks build
    them; the config of [withSpring] may be left out. *)
Inductive Animation : Type :=
| withSpring (toValue : number) (config : option AnimationSpringConfig)
| withSequence (steps : list Animation).

End Worklet.

(** ** AnimationUtils.getSpringConfig (src/domain/entities/Animation.ts)
    and AnimationConfigService, the copy of both tables in the
    infrastructure layer *)

Module AnimationUtils.
Import JS Worklet UseAnimation.

(** ANIMATION_CONSTANTS.SPRING *)
Module SPRING.
Definition DAMPING : number := 10%float.
Definition STIFFNESS : number := 100%float.
Definition MASS : number := 1%float.
End SPRING.

Definition getSpringConfig (preset : AnimationPreset)
    : AnimationSpringConfig :=
  match preset with
  | FADE_IN => mkSpringConfig (Some SPRING.DAMPING) (Some SPRING.STIFFNESS) None
  | FADE_OUT => mkSpringConfig (Some SPRING.DAMPING) (Some SPRING.STIFFNESS) None
  | SLIDE_IN_UP =>
      mkSpringConfig (Some SPRING.DAMPING) (Some SPRING.STIFFNESS) None
  | SLIDE_IN_DOWN =>
      mkSpringConfig (Some SPRING.DAMPING) (Some SPRING.STIFFNESS) None
  | SLIDE_IN_LEFT =>
      mkSpringConfig (Some SPRING.DAMPING) (Some SPRING.STIFFNESS) None
  | SLIDE_IN_RIGHT =>
      mkSpringConfig (Some SPRING.DAMPING) (Some SPRING.STIFFNESS) None
  | SCALE_IN => mkSpringConfig (Some 15%float) (Some 150%float) None
  | SCALE_OUT => mkSpringConfig (Some 15%float) (Some 150%float) None
  | BOUNCE => mkSpringConfig (Some 5%float) (Some 120%float) None
  | SHAKE => mkSpringConfig (Some 8%float) (Some 200%float) None
  end.

End AnimationUtils.

Module AnimationConfigService.
Import JS Worklet UseAnimation.

(** The table is written as an object with one entry per preset, read at
    the key [preset]. *)
Definition timing_table : list (AnimationPreset * AnimationTimingConfig) :=
  [ (FADE_IN, mkConfig (Some DURATION.NORMAL) None);
    (FADE_OUT, mkConfig (Some DURATION.NORMAL) None);
    (SLIDE_IN_UP, mkConfig (Some DURATION.NORMAL) None);
    (SLIDE_IN_DOWN, mkConfig (Some DURATION.NORMAL) None);
    (SLIDE_IN_LEFT, mkConfig (Some DURATION.NORMAL) None);
    (SLIDE_IN_RIGHT, mkConfig (Some DURATION.NORMAL) None);
    (SCALE_IN, mkConfig (Some DURATION.FAST) None);
    (SCALE_OUT, mkConfig (Some DURATION.FAST) None);
    (BOUNCE, mkConfig (Some DURATION.SLOW) None);
    (SHAKE, mkConfig (Some DURATION.FAST) None) ].

Definition spring_table : list (AnimationPreset * AnimationSpringConfig) :=
  [ (FADE_IN,
     mkSpringConfig (Some AnimationUtils.SPRING.DAMPING)
       (Some AnimationUtils.SPRING.STIFFNESS) None);
    (FADE_OUT,
     mkSpringConfig (Some AnimationUtils.SPRING.DAMPING)
       (Some AnimationUtils.SPRING.STIFFNESS) None);
    (SLIDE_IN_UP,
     mkSpringConfig (Some AnimationUtils.SPRING.DAMPING)
       (Some AnimationUtils.SPRING.STIFFNESS) None);
    (SLIDE_IN_DOWN,
     mkSpringConfig (Some AnimationUtils.SPRING.DAMPING)
       (Some AnimationUtils.SPRING.STIFFNESS) None);
    (SLIDE_IN_LEFT,
     mkSpringConfig (Some AnimationUtils.SPRING.DAMPING)
       (Some AnimationUtils.SPRING.STIFFNESS) None);
    (SLIDE_IN_RIGHT,
     mkSpringConfig (Some AnimationUtils.SPRING.DAMPING)
       (Some AnimationUtils.SPRING.STIFFNESS) None);
    (SCALE_IN, mkSpringConfig (Some 15%float) (Some 150%float) None);
    (SCALE_OUT, mkSpringConfig (Some 15%float) (Some 150%float) None);
    (BOUNCE, mkSpringConfig (Some 5%float) (Some 120%float) None);
    (SHAKE, mkSpringConfig (Some 8%float) (Some 200%float) None) ].

Definition preset_eqb (a b : AnimationPreset) : bool :=
  match a, b with
  | FADE_IN, FADE_IN
  | FADE_OUT, FADE_OUT
  | SLIDE_IN_UP, SLIDE_IN_UP
  | SLIDE_IN_DOWN, SLIDE_IN_DOWN
  | SLIDE_IN_LEFT, SLIDE_IN_LEFT
  | SLIDE_IN_RIGHT, SLIDE_IN_RIGHT
  | SCALE_IN, SCALE_IN
  | SCALE_OUT, SCALE_OUT
  | BOUNCE, BOUNCE
  | SHAKE, SHAKE => true
  | _, _ => false
  end.

(** [configs[preset]]: the entry at the key, [undefined] without one. *)
Fixpoint lookup {A : Type} (table : list (AnimationPreset * A))
    (preset : AnimationPreset) : option A :=
  match table with
  | [] => None
  | (k, v) :: rest => if preset_eqb preset k then Some v else lookup rest preset
  end.

Definition getTimingConfig (preset : AnimationPreset)
    : option AnimationTimingConfig :=
  lookup timing_table preset.

Definition getSpringConfig (preset : AnimationPreset)
    : option AnimationSpringConfig :=
  lookup spring_table preset.

End AnimationConfigService.

(** ** The spring transitions of useAnimation.ts *)

Module UseAnimationSprings.
Import JS Worklet UseAnimation.

(** An assignment to [scale.value]: a plain number or an animation. *)
Inductive Assignment : Type :=
| assign (sv : SharedValue) (x : number)
| animate (sv : SharedValue) (a : Animation).

(** [config || AnimationUtils.getSpringConfig(preset)] *)
Definition config_or (config : option AnimationSpringConfig)
    (preset : AnimationPreset) : AnimationSpringConfig :=
  match config with
  | Some c => c
  | None => AnimationUtils.getSpringConfig preset
  end.

(** The config object both scale transitions build. *)
Definition scale_spring (spring : AnimationSpringConfig)
    : AnimationSpringConfig :=
  mkSpringConfig
    (Some (or_else (damping spring) AnimationUtils.SPRING.DAMPING))
    (Some (or_else (stiffness spring) AnimationUtils.SPRING.STIFFNESS))
    None.

Definition scaleIn (config : option AnimationSpringConfig)
    : list Assignment :=
  let spring := config_or config SCALE_IN in
  [ assign scale 0%float;
    animate scale (withSpring 1%float (Some (scale_spring spring))) ].

Definition scaleOut (config : option AnimationSpringConfig)
    : list Assignment :=
  let spring := config_or config SCALE_OUT in
  [ animate scale (withSpring 0%float (Some (scale_spring spring))) ].

Definition bounce (config : option AnimationSpringConfig)
    : list Assignment :=
  let spring := config_or config BOUNCE in
  [ animate scale
      (withSequence
         [ withSpring 0.8%float (Some spring);
           withSpring 1.2%float (Some spring);
           withSpring 1%float (Some spring) ]) ].

(** The spring configs among some assignments, sequences flattened. *)
Fixpoint springs_of (a : Animation) : list (option AnimationSpringConfig) :=
  match a with
  | withSpring _ c => [c]
  | withSequence steps => flat_map springs_of steps
  end.

Definition springs (l : list Assignment)
    : list (option AnimationSpringConfig) :=
  flat_map (fun a => match a with
                     | animate _ an => springs_of an
                     | assign _ _ => []
                     end) l.

End UseAnimationSprings.

(** ** src/presentation/hooks/useGesture.ts *)

Module UseGesture.
Import JS Worklet.

(** The six shared values of the hook. *)
Record Shared : Type := mkShared
  { translateX : number;
    translateY : number;
    scale : number;
    savedTranslateX : number;
    savedTranslateY : number;
    savedScale : number }.

(** [useSharedValue(0)], ..., [useSharedValue(1)] *)
Definition initial : Shared :=
  mkShared 0%float 0%float 1%float 0%float 0%float 1%float.

(** The caller's handlers are its own functions: an options object says
    which of them it gives, and [runOnJS(handler)(args)] is recorded with
    its arguments. *)
Inductive JsCall : Type :=
| onTap
| onLongPress
| onStart
| onUpdate (x y : number)
| onEnd (x y : number)
| onPinchUpdate (s : number)
| onPinchEnd (s : number).

Record Handlers : Type := mkHandlers
  { has_onStart : bool;
    has_onUpdate : bool;
    has_onEnd : bool }.

(** [if (handler) runOnJS(handler)(...)] *)
Definition call_if (given : bool) (c : JsCall) : list JsCall :=
  if given then [c] else [].

(** What the recognizer reports while a gesture goes on. *)
Inductive PanEvent : Type :=
| pan_start
| pan_update (translationX translationY : number)
| pan_end.

Definition pan_handler (o : Handlers) (s : Shared) (e : PanEvent)
    : Shared * list JsCall :=
  match e with
  | pan_start =>
      (mkShared (translateX s) (translateY s) (scale s)
         (translateX s) (translateY s) (savedScale s),
       call_if (has_onStart o) onStart)
  | pan_update translationX translationY =>
      let x := PrimFloat.add (savedTranslateX s) translationX in
      let y := PrimFloat.add (savedTranslateY s) translationY in
      (mkShared x y (scale s)
         (savedTranslateX s) (savedTranslateY s) (savedScale s),
       call_if (has_onUpdate o) (onUpdate x y))
  | pan_end =>
      (s, call_if (has_onEnd o) (onEnd (translateX s) (translateY s)))
  end.

Inductive PinchEvent : Type :=
| pinch_start
| pinch_update (event_scale : number)
| pinch_end.

Definition pinch_handler (o : Handlers) (s : Shared) (e : PinchEvent)
    : Shared * list JsCall :=
  match e with
  | pinch_start =>
      (mkShared (translateX s) (translateY s) (scale s)
         (savedTranslateX s) (savedTranslateY s) (scale s),
       call_if (has_onStart o) onStart)
  | pinch_update event_scale =>
      let z := PrimFloat.mul (savedScale s) event_scale in
      (mkShared (translateX s) (translateY s) z
         (savedTranslateX s) (savedTranslateY s) (savedScale s),
       call_if (has_onUpdate o) (onPinchUpdate z))
  | pinch_end =>
      (s, call_if (has_onEnd o) (onPinchEnd (scale s)))
  end.

(** The events of a recognizer, handled one after the other. *)
Fixpoint handle {E : Type} (handler : Shared -> E -> Shared * list JsCall)
    (es : list E) (s : Shared) : Shared * list JsCall :=
  match es with
  | [] => (s, [])
  | e :: es' =>
      let r1 := handler s e in
      let r2 := handle handler es' (fst r1) in
      (fst r2, snd r1 ++ snd r2)
  end.

(** The updates of one gesture, from the translations (the factors) the
    recognizer reports. *)
Definition pan_updates (ups : list (number * number)) : list PanEvent :=
  map (fun u => pan_update (fst u) (snd u)) ups.

Definition pinch_updates (ups : list number) : list PinchEvent :=
  map pinch_update ups.

(** [reset]: three springs are started (the values move on later frames)
    and the saved values are written. *)
Definition reset (s : Shared)
    : Shared * list (number * Animation) :=
  (mkShared (translateX s) (translateY s) (scale s) 0%float 0%float 1%float,
   [ (translateX s, withSpring 0%float None);
     (translateY s, withSpring 0%float None);
     (scale s, withSpring 1%float None) ]).

(** The tap and long-press recognizers: their settings and the handler of
    their start. *)
Record TapGestureOptions : Type := mkTapOptions
  { numberOfTaps : option number;
    maxDuration : option number;
    tap_onTap : bool }.

Record TapGesture : Type := mkTapGesture
  { tap_numberOfTaps : number;
    tap_maxDuration : number;
    tap_onStart : list JsCall }.

Definition createTapGesture (options : option TapGestureOptions)
    : TapGesture :=
  let options := nullish options (mkTapOptions None None false) in
  mkTapGesture (nullish (numberOfTaps options) 1%float)
    (nullish (maxDuration options) 500%float)
    (call_if (tap_onTap options) onTap).

Record LongPressOptions : Type := mkLongPressOptions
  { minDuration : option number;
    lp_onLongPress : bool }.

Record LongPressGesture : Type := mkLongPressGesture
  { lp_minDuration : number;
    lp_onStart : list JsCall }.

Definition createLongPressGesture (options : option LongPressOptions)
    : LongPressGesture :=
  let options := nullish options (mkLongPressOptions None false) in
  mkLongPressGesture (nullish (minDuration options) 500%float)
    (call_if (lp_onLongPress options) onLongPress).

End UseGesture.

(** * Theorems *)

Import JS Animated React.

Lemma same_value_refl (x : number) : same_value x x = true.
Proof. apply FloatAxioms.Leibniz.eqb_spec. reflexivity. Qed.

(** C4: with [enabled = false] the hook, on mount, writes the terminal
    values 1, 1, 1, 0, 1, 0, 1, 0 to its eight scalars (in declared order)
    inside the effect itself, and starts no animation. *)
Theorem staggered_disabled_jumps_to_final_values
    (delay duration translateYOffset : option number) :
  let o := StaggeredEntrance.mkOptions delay duration translateYOffset
             (Some false) in
  let m := mount StaggeredEntrance.useStaggeredEntrance o in
  StaggeredEntrance.read_all (store (fst m)) = [1; 1; 1; 0; 1; 0; 1; 0]%float
  /\ snd m = StaggeredEntrance.final_values
  /\ filter is_start (snd m) = [].
Proof.
  intros o m. repeat split.
Qed.

(** ** The staggered entrance *)

(** With the default options the sequence is started once; the icon fades
    in over 600 * 0.8 = 480 ms, and before any frame the handles read the
    values they were created with. *)
Example staggered_default_options :
  let h := StaggeredEntrance.useStaggeredEntrance in
  let o := StaggeredEntrance.mkOptions None None None None in
  snd (mount h o) = [ start (StaggeredEntrance.entrance 600%float) ]
  /\ PrimFloat.mul 600%float 0.8%float = 480%float
  /\ StaggeredEntrance.read_all (store (fst (mount h o)))
     = [ 0; 0; 0; 30; 0; 30; 0; 30 ]%float.
Proof. repeat split. Qed.

(** C1: with [enabled] true (given or by default) the hook starts exactly
    one composition on mount: the sequence of the four parallel groups
    icon, title, description, features, with the stated springs and
    timings.  Under the engine's ordering contract the first group is
    issued at once and each later group only when both members of the
    group before it have settled. *)
Theorem staggered_enabled_starts_one_sequence (o : StaggeredEntrance.Options)
    (Henabled : nullish (StaggeredEntrance.enabled o) true = true) :
  let d := nullish (StaggeredEntrance.duration o) 600%float in
  let c :=
    sequence
      [ parallel
          [ spring StaggeredEntrance.iconScale
              (mkSpring 1%float 50%float 7%float true);
            timing StaggeredEntrance.iconOpacity
              (mkTiming 1%float (PrimFloat.mul d 0.8%float) None true) ];
        parallel
          [ timing StaggeredEntrance.titleOpacity
              (mkTiming 1%float d None true);
            spring StaggeredEntrance.titleTranslateY
              (mkSpring 0%float 50%float 8%float true) ];
        parallel
          [ timing StaggeredEntrance.descriptionOpacity
              (mkTiming 1%float d None true);
            spring StaggeredEntrance.descriptionTranslateY
              (mkSpring 0%float 50%float 8%float true) ];
        parallel
          [ timing StaggeredEntrance.featuresOpacity
              (mkTiming 1%float d None true);
            spring StaggeredEntrance.featuresTranslateY
              (mkSpring 0%float 50%float 8%float true) ] ] in
  snd (mount StaggeredEntrance.useStaggeredEntrance o) = [ start c ]
  /\ forall done : StaggeredEntrance.Scalar -> bool,
       issued done c =
         [ StaggeredEntrance.iconScale; StaggeredEntrance.iconOpacity ]
         ++ (if done StaggeredEntrance.iconScale
                && done StaggeredEntrance.iconOpacity
             then
               [ StaggeredEntrance.titleOpacity;
                 StaggeredEntrance.titleTranslateY ]
               ++ (if done StaggeredEntrance.titleOpacity
                      && done StaggeredEntrance.titleTranslateY
                   then
                     [ StaggeredEntrance.descriptionOpacity;
                       StaggeredEntrance.descriptionTranslateY ]
                     ++ (if done StaggeredEntrance.descriptionOpacity
                            && done StaggeredEntrance.descriptionTranslateY
                         then
                           [ StaggeredEntrance.featuresOpacity;
                             StaggeredEntrance.featuresTranslateY ]
                         else [])
                   else [])
             else []).
Proof.
  intros d c. split.
  - unfold mount. cbn [snd effect StaggeredEntrance.useStaggeredEntrance].
    unfold StaggeredEntrance.effect_body. rewrite Henabled. reflexivity.
  - intros done. cbn.
    repeat match goal with
           | |- context [done ?v] => destruct (done v)
           end; reflexivity.
Qed.

Lemma staggered_enabled_starts_one_sequence_witness :
  exists c,
    snd (mount StaggeredEntrance.useStaggeredEntrance
           (StaggeredEntrance.mkOptions None None None None)) = [ start c ]
    /\ issued (fun _ => false) c
       = [ StaggeredEntrance.iconScale; StaggeredEntrance.iconOpacity ].
Proof.
  eexists. split.
  - apply (staggered_enabled_starts_one_sequence
             (StaggeredEntrance.mkOptions None None None None)).
    reflexivity.
  - reflexivity.
Defined.

Lemma staggered_effect_ignores_delay (d : option number)
    (o : StaggeredEntrance.Options) :
  StaggeredEntrance.effect_body (StaggeredEntrance.with_delay d o)
  = StaggeredEntrance.effect_body o.
Proof. reflexivity. Qed.

Lemma staggered_initial_ignores_delay (d : option number)
    (o : StaggeredEntrance.Options) :
  StaggeredEntrance.initial_values (StaggeredEntrance.with_delay d o)
  = StaggeredEntrance.initial_values o.
Proof. reflexivity. Qed.

(** With the same delay in two consecutive renders, the comparison of the
    dependency arrays does not depend on which delay it is. *)
Lemma staggered_deps_same_delay (d1 d2 : option number)
    (o o' : StaggeredEntrance.Options) :
  areHookInputsEqual StaggeredEntrance.scalar_eqb
    (StaggeredEntrance.deps (StaggeredEntrance.with_delay d1 o))
    (StaggeredEntrance.deps (StaggeredEntrance.with_delay d1 o'))
  = areHookInputsEqual StaggeredEntrance.scalar_eqb
      (StaggeredEntrance.deps (StaggeredEntrance.with_delay d2 o))
      (StaggeredEntrance.deps (StaggeredEntrance.with_delay d2 o')).
Proof.
  unfold StaggeredEntrance.deps, StaggeredEntrance.with_delay.
  cbn -[same_value]. rewrite !same_value_refl. reflexivity.
Qed.

Lemma staggered_rerender_same_delay (d1 d2 : option number)
    (o prev : StaggeredEntrance.Options)
    (st : StaggeredEntrance.Scalar -> number) :
  let h := StaggeredEntrance.useStaggeredEntrance in
  exists st' cs,
    rerender h (StaggeredEntrance.with_delay d1 o)
      (mkInstance st
         (StaggeredEntrance.deps (StaggeredEntrance.with_delay d1 prev)))
    = (mkInstance st'
         (StaggeredEntrance.deps (StaggeredEntrance.with_delay d1 o)), cs)
    /\ rerender h (StaggeredEntrance.with_delay d2 o)
         (mkInstance st
            (StaggeredEntrance.deps (StaggeredEntrance.with_delay d2 prev)))
       = (mkInstance st'
            (StaggeredEntrance.deps (StaggeredEntrance.with_delay d2 o)), cs).
Proof.
  intros h. unfold rerender.
  cbn [last_deps store dependencies ref_eqb h
       StaggeredEntrance.useStaggeredEntrance].
  rewrite (staggered_deps_same_delay d1 d2 o prev).
  destruct (areHookInputsEqual StaggeredEntrance.scalar_eqb
              (StaggeredEntrance.deps (StaggeredEntrance.with_delay d2 o))
              (StaggeredEntrance.deps
                 (StaggeredEntrance.with_delay d2 prev))).
  - exists st, []. split; reflexivity.
  - exists (run_effect StaggeredEntrance.useStaggeredEntrance o st),
      (StaggeredEntrance.effect_body o).
    split; reflexivity.
Qed.

Lemma staggered_rerenders_same_delay (d1 d2 : option number)
    (os : list StaggeredEntrance.Options) :
  forall (prev : StaggeredEntrance.Options)
         (st : StaggeredEntrance.Scalar -> number),
    let h := StaggeredEntrance.useStaggeredEntrance in
    let r1 :=
      rerenders h (map (StaggeredEntrance.with_delay d1) os)
        (mkInstance st
           (StaggeredEntrance.deps (StaggeredEntrance.with_delay d1 prev))) in
    let r2 :=
      rerenders h (map (StaggeredEntrance.with_delay d2) os)
        (mkInstance st
           (StaggeredEntrance.deps (StaggeredEntrance.with_delay d2 prev))) in
    snd r1 = snd r2 /\ store (fst r1) = store (fst r2).
Proof.
  induction os as [|o os IH]; intros prev st; cbn zeta.
  - split; reflexivity.
  - cbn [map rerenders].
    destruct (staggered_rerender_same_delay d1 d2 o prev st)
      as (st' & cs & E1 & E2).
    cbn zeta in E1, E2. rewrite E1, E2. cbn [fst snd].
    destruct (IH o st') as [Hc Hs]. cbn zeta in Hc, Hs.
    split; [ f_equal; exact Hc | exact Hs ].
Qed.

(** C6: two mounted components whose options differ in the value of
    [delay] only, render after render, make the same engine calls in the
    same renders and hold the same values: the delay neither gates nor
    postpones the entrance sequence. *)
Theorem staggered_delay_is_ignored (d1 d2 : option number)
    (o : StaggeredEntrance.Options) (os : list StaggeredEntrance.Options) :
  let h := StaggeredEntrance.useStaggeredEntrance in
  let r1 :=
    renders h (StaggeredEntrance.with_delay d1 o)
      (map (StaggeredEntrance.with_delay d1) os) in
  let r2 :=
    renders h (StaggeredEntrance.with_delay d2 o)
      (map (StaggeredEntrance.with_delay d2) os) in
  snd r1 = snd r2 /\ store (fst r1) = store (fst r2).
Proof.
  intros h r1 r2. subst r1 r2. unfold renders.
  cbn [fst snd mount].
  destruct (staggered_rerenders_same_delay d1 d2 os o
              (run_effect h o (StaggeredEntrance.initial_values o)))
    as [Hc Hs].
  cbn zeta in Hc, Hs.
  split; [ f_equal; exact Hc | exact Hs ].
Qed.

(** The dependency array is in the effect's list all the same: a render
    that changes the delay of a mounted component runs the effect again. *)
Example staggered_delay_change_reruns_effect :
  let h := StaggeredEntrance.useStaggeredEntrance in
  let o d := StaggeredEntrance.mkOptions (Some d) None None None in
  snd (renders h (o 100%float) [ o 100%float; o 200%float ])
  = [ [ start (StaggeredEntrance.entrance 600%float) ];
      [];
      [ start (StaggeredEntrance.entrance 600%float) ] ].
Proof. vm_compute. reflexivity. Qed.

(** ** Facts about every hook of this shape *)

Section HookFacts.
Variables V P : Type.
Variable h : Hook V P.

Lemma mount_last_deps (p : P) :
  last_deps (fst (mount h p)) = dependencies h p.
Proof. reflexivity. Qed.

Lemma rerender_last_deps (p : P) (i : Instance V) :
  last_deps (fst (rerender h p i)) = dependencies h p.
Proof.
  unfold rerender.
  destruct (areHookInputsEqual (ref_eqb h) (dependencies h p) (last_deps i));
    reflexivity.
Qed.

(** A render either leaves the engine alone or runs the effect's body. *)
Lemma rerender_calls (p : P) (i : Instance V) :
  snd (rerender h p i) = [] \/ snd (rerender h p i) = effect h p.
Proof.
  unfold rerender.
  destruct (areHookInputsEqual (ref_eqb h) (dependencies h p) (last_deps i));
    [ left | right ]; reflexivity.
Qed.

End HookFacts.

(** ** The bottom sheet *)

(** C2: the two scalars start at the screen height and at 0.  The first
    render, and every later render in which [visible] differs from the
    render before, starts one parallel pair of timings: toward 0 and 1
    with [duration] (300 unless given) when [visible] is true, toward the
    screen height and 0 with [closeDuration] (250 unless given) when it is
    false. *)
Theorem bottom_sheet_drives_parallel_pair (SCREEN_HEIGHT : number)
    (o prev : BottomSheet.Options)
    (st : BottomSheet.Scalar -> number) :
  let h := BottomSheet.useBottomSheetAnimation SCREEN_HEIGHT in
  let d := nullish (BottomSheet.duration o) 300%float in
  let cd := nullish (BottomSheet.closeDuration o) 250%float in
  let opening :=
    parallel
      [ timing BottomSheet.slideAnim (mkTiming 0%float d None true);
        timing BottomSheet.backdropOpacity (mkTiming 1%float d None true) ] in
  let closing :=
    parallel
      [ timing BottomSheet.slideAnim (mkTiming SCREEN_HEIGHT cd None true);
        timing BottomSheet.backdropOpacity
          (mkTiming 0%float cd None true) ] in
  (forall visible,
      store (fst (mount h (visible, o))) BottomSheet.slideAnim = SCREEN_HEIGHT
      /\ store (fst (mount h (visible, o))) BottomSheet.backdropOpacity
         = 0%float)
  /\ snd (mount h (true, o)) = [ start opening ]
  /\ snd (mount h (false, o)) = [ start closing ]
  /\ snd (rerender h (true, o)
            (mkInstance st (BottomSheet.deps (false, prev))))
     = [ start opening ]
  /\ snd (rerender h (false, o)
            (mkInstance st (BottomSheet.deps (true, prev))))
     = [ start closing ].
Proof.
  intros h d cd opening closing.
  split; [ intros [|]; split; reflexivity | ].
  repeat split.
Qed.

(** C7, as the claim states it, fails: with [visible] true in both
    renders, a second render that only changes [duration] from the default
    to 500 starts a new animation in that very render. *)
Lemma bottom_sheet_duration_change_counterexample :
  let h := BottomSheet.useBottomSheetAnimation 800%float in
  snd (rerender h (true, BottomSheet.mkOptions (Some 500%float) None)
         (fst (mount h (true, BottomSheet.mkOptions None None))))
  = [ start (BottomSheet.pair 0%float 1%float 500%float) ]
  /\ snd (rerender h (true, BottomSheet.mkOptions (Some 500%float) None)
            (fst (mount h (true, BottomSheet.mkOptions None None))))
     <> [].
Proof.
  split; [ vm_compute; reflexivity | vm_compute; discriminate ].
Qed.

Lemma bool_eqb_refl (b : bool) : Bool.eqb b b = true.
Proof. destruct b; reflexivity. Qed.

(** C7, amended: [duration] and [closeDuration] are dependencies of the
    effect.  A render with [visible] unchanged starts nothing when both
    are unchanged too; when either of them changed it starts, in that same
    render, a new parallel pair toward the targets of the current
    [visible], with the new [duration] (open) or [closeDuration]
    (closed). *)
Theorem bottom_sheet_duration_change_restarts (SCREEN_HEIGHT : number)
    (visible : bool) (o o' : BottomSheet.Options)
    (st : BottomSheet.Scalar -> number) :
  let h := BottomSheet.useBottomSheetAnimation SCREEN_HEIGHT in
  let d := nullish (BottomSheet.duration o) 300%float in
  let cd := nullish (BottomSheet.closeDuration o) 250%float in
  let d' := nullish (BottomSheet.duration o') 300%float in
  let cd' := nullish (BottomSheet.closeDuration o') 250%float in
  snd (rerender h (visible, o')
         (mkInstance st (BottomSheet.deps (visible, o))))
  = if same_value d' d && same_value cd' cd then []
    else if visible
         then [ start (BottomSheet.pair 0%float 1%float d') ]
         else [ start (BottomSheet.pair SCREEN_HEIGHT 0%float cd') ].
Proof.
  intros h d cd d' cd'. unfold rerender.
  cbn -[same_value] in *.
  rewrite bool_eqb_refl. cbn [andb].
  subst d d' cd cd'.
  destruct (same_value (nullish (BottomSheet.duration o') 300%float)
              (nullish (BottomSheet.duration o) 300%float));
    destruct (same_value (nullish (BottomSheet.closeDuration o') 250%float)
                (nullish (BottomSheet.closeDuration o) 250%float));
    destruct visible; reflexivity.
Qed.

(** ** The splash screen *)

(** C3: the three scalars are created at 0, 0.8 and the configured slide
    offset (50 unless given).  With [enabled] false the effect writes 1, 1
    and 0 and starts nothing.  Otherwise it starts exactly one parallel
    group of a fade timing, a scale spring and a slide timing, and leaves
    the scalars where they were created; whatever has or has not settled,
    the engine has issued all three members: none waits for another. *)
Theorem splash_parallel_or_jump
    (fadeDuration springTension springFriction slideDuration slideOffset
     : option number) (enabled : option bool) :
  let h := Splash.useSplashAnimation in
  let o := Splash.mkOptions fadeDuration springTension springFriction
             slideDuration slideOffset enabled in
  let c :=
    parallel
      [ timing Splash.fadeAnim
          (mkTiming 1%float (nullish fadeDuration 1000%float) None true);
        spring Splash.scaleAnim
          (mkSpring 1%float (nullish springTension 100%float)
             (nullish springFriction 8%float) true);
        timing Splash.slideAnim
          (mkTiming 0%float (nullish slideDuration 800%float) None true) ] in
  Splash.read_all (initial h o)
    = [ 0%float; 0.8%float; nullish slideOffset 50%float ]
  /\ snd (mount h o)
     = (if nullish enabled true then [ start c ]
        else [ setValue Splash.fadeAnim 1%float;
               setValue Splash.scaleAnim 1%float;
               setValue Splash.slideAnim 0%float ])
  /\ Splash.read_all (store (fst (mount h o)))
     = (if nullish enabled true
        then [ 0%float; 0.8%float; nullish slideOffset 50%float ]
        else [ 1%float; 1%float; 0%float ])
  /\ forall done : Splash.Scalar -> bool,
       issued done c
       = [ Splash.fadeAnim; Splash.scaleAnim; Splash.slideAnim ].
Proof.
  intros h o c. split; [ reflexivity | ].
  split; [ | split ].
  - unfold mount. cbn [snd effect h Splash.useSplashAnimation].
    unfold Splash.effect_body. cbn [Splash.enabled o].
    destruct (nullish enabled true); reflexivity.
  - unfold mount, run_effect.
    cbn [fst store effect initial h Splash.useSplashAnimation].
    unfold Splash.effect_body. cbn [Splash.enabled o].
    destruct (nullish enabled true); reflexivity.
  - intros done. reflexivity.
Qed.

(** ** The preset factories *)

(** C5: without a preset argument [createTimingAnimation] builds the
    timing of the "normal" preset: 300 ms, ease-out-quad, native driver.
    With an explicit preset, its duration and its easing are passed on as
    they are, and so is its [useNativeDriver] when it gives one (the
    driver is on when it gives none). *)
Theorem createTimingAnimation_resolves_preset (V : Type) (v : V)
    (t : number) :
  Presets.createTimingAnimation v t None
  = timing v (mkTiming t 300%float (Some (out quad)) true)
  /\ Presets.createTimingAnimation v t None
     = Presets.createTimingAnimation v t (Some Presets.normal)
  /\ (forall (d : number) (e : option EasingFn) (b : bool),
        Presets.createTimingAnimation v t
          (Some (Presets.mkTimingPreset d e (Some b)))
        = timing v (mkTiming t d e b))
  /\ (forall (d : number) (e : option EasingFn),
        Presets.createTimingAnimation v t
          (Some (Presets.mkTimingPreset d e None))
        = timing v (mkTiming t d e true)).
Proof. repeat split. Qed.

(** ** The worklet hook's timed transitions *)

Lemma truthy_nonzero (x : number) :
  truthy x = true -> PrimFloat.eqb x 0%float = false.
Proof.
  unfold truthy. destruct (PrimFloat.eqb x 0%float); [ discriminate | easy ].
Qed.

Lemma or_else_nonzero (x : option number) (d : number) :
  truthy d = true -> PrimFloat.eqb (or_else x d) 0%float = false.
Proof.
  intros Hd. unfold or_else. destruct x as [v|].
  - destruct (truthy v) eqn:Hv; apply truthy_nonzero; assumption.
  - apply truthy_nonzero; assumption.
Qed.

(** C10: a config whose duration is 0 (the INSTANT constant) does not
    make fadeIn, fadeOut or the four slideIn transitions instant: each of
    them animates over NORMAL = 300 ms.  Whatever the config, none of the
    six ever animates over a duration equal to zero. *)
Theorem timed_transitions_never_instant (distance : option number)
    (e : option EasingFn) :
  map UseAnimation.durations
    (UseAnimation.timed_transitions distance
       (Some (UseAnimation.mkConfig (Some UseAnimation.DURATION.INSTANT) e)))
  = [ [ 300%float ]; [ 300%float ]; [ 300%float ];
      [ 300%float ]; [ 300%float ]; [ 300%float ] ]
  /\ UseAnimation.DURATION.INSTANT = 0%float
  /\ UseAnimation.DURATION.NORMAL = 300%float
  /\ forall config : option UseAnimation.AnimationTimingConfig,
       Forall (fun d => PrimFloat.eqb d 0%float = false)
         (flat_map UseAnimation.durations
            (UseAnimation.timed_transitions distance config)).
Proof.
  split; [ reflexivity | ].
  split; [ reflexivity | ].
  split; [ reflexivity | ].
  intros config. cbn.
  repeat constructor; apply or_else_nonzero; reflexivity.
Qed.

(** ** The readiness gate *)

Section ReadinessGate.
Import ReanimatedReady.

Lemma in_pending (w : World) (cb : Callback) :
  In cb (pending w) <->
  (exists t, In t (timers w) /\ callback t = cb) \/ In cb (frame_queue w).
Proof.
  unfold pending. rewrite in_app_iff, in_map_iff.
  split; (intros [(t & H1 & H2)|H]; [ left; exists t; auto | right; auto ]).
Qed.

Lemma invoke_now (w : World) (cb : Callback) : now (invoke w cb) = now w.
Proof. destruct cb; reflexivity. Qed.

Lemma invoke_timers (w : World) (cb : Callback) :
  timers (invoke w cb) = timers w.
Proof. destruct cb; reflexivity. Qed.

Lemma invoke_mounted (w : World) (cb : Callback) :
  mounted (invoke w cb) = mounted w.
Proof. destruct cb; reflexivity. Qed.

Lemma fold_invoke_now (l : list Callback) :
  forall w, now (fold_left invoke l w) = now w.
Proof.
  induction l as [|cb l IH]; intros w; cbn; [ reflexivity | ].
  rewrite IH. apply invoke_now.
Qed.

Lemma fold_invoke_timers (l : list Callback) :
  forall w, timers (fold_left invoke l w) = timers w.
Proof.
  induction l as [|cb l IH]; intros w; cbn; [ reflexivity | ].
  rewrite IH. apply invoke_timers.
Qed.

(** *** The flag only ever goes up *)

Lemma invoke_latches (w : World) (cb : Callback) :
  final cb = true ->
  (forall k, In k (pending w) -> final k = true) ->
  (forall k, In k (pending (invoke w cb)) -> final k = true)
  /\ (isReady w = true -> isReady (invoke w cb) = true).
Proof.
  intros Hcb Hw. destruct cb as [b|k0]; cbn in Hcb.
  - split.
    + intros k Hk. apply Hw. exact Hk.
    + intros Hr. cbn. subst b. destruct (mounted w); auto.
  - split.
    + intros k Hk. apply in_pending in Hk. cbn in Hk.
      destruct Hk as [Ht|Hq].
      * apply Hw. apply in_pending. left. exact Ht.
      * apply in_app_iff in Hq. destruct Hq as [Hq|[<-|[]]].
        -- apply Hw. apply in_pending. right. exact Hq.
        -- exact Hcb.
    + intros Hr. exact Hr.
Qed.

Lemma fold_invoke_latches (l : list Callback) :
  forall w,
    (forall k, In k l -> final k = true) ->
    (forall k, In k (pending w) -> final k = true) ->
    (forall k, In k (pending (fold_left invoke l w)) -> final k = true)
    /\ (isReady w = true -> isReady (fold_left invoke l w) = true).
Proof.
  induction l as [|cb l IH]; intros w Hl Hw; cbn.
  - split; auto.
  - destruct (invoke_latches w cb (Hl cb (or_introl eq_refl)) Hw)
      as [Hp Hr].
    destruct (IH (invoke w cb) (fun k Hk => Hl k (or_intror Hk)) Hp)
      as [Hp' Hr'].
    split; auto.
Qed.

Lemma step_latches (w : World) (e : Event) :
  (forall k, In k (pending w) -> final k = true) ->
  (forall k, In k (pending (step w e)) -> final k = true)
  /\ (isReady w = true -> isReady (step w e) = true).
Proof.
  intros Hw. destruct e as [ms| |]; cbn [step].
  - match goal with
    | |- context [fold_left invoke ?l ?w0] =>
        assert (Hl : forall k, In k l -> final k = true);
        [ | assert (H0 : forall k, In k (pending w0) -> final k = true);
            [ | destruct (fold_invoke_latches l w0 Hl H0) as [A B];
                split; [ exact A | exact B ] ] ]
    end.
    + intros k Hk. apply in_map_iff in Hk. destruct Hk as (t & <- & Ht).
      apply filter_In in Ht. apply Hw. apply in_pending. left.
      exists t. tauto.
    + intros k Hk. apply in_pending in Hk. cbn in Hk. apply Hw.
      apply in_pending. destruct Hk as [(t & Ht & Hc)|Hq].
      * left. exists t. apply filter_In in Ht. tauto.
      * right. exact Hq.
  - match goal with
    | |- context [fold_left invoke ?l ?w0] =>
        assert (Hl : forall k, In k l -> final k = true);
        [ | assert (H0 : forall k, In k (pending w0) -> final k = true);
            [ | destruct (fold_invoke_latches l w0 Hl H0) as [A B];
                split; [ exact A | exact B ] ] ]
    end.
    + intros k Hk. apply Hw. apply in_pending. right. exact Hk.
    + intros k Hk. apply in_pending in Hk. cbn in Hk. apply Hw.
      apply in_pending. destruct Hk as [Ht|[]]. left. exact Ht.
  - destruct (mounted w); [ | auto ].
    split; [ | destruct (cleanup w); intros Hr; exact Hr ].
    intros k Hk. apply in_pending in Hk. apply Hw. apply in_pending.
    destruct (cleanup w) as [id|]; cbn in Hk; [ | exact Hk ].
    destruct Hk as [(t & Ht & Hc)|Hq]; [ | right; exact Hq ].
    left. exists t. apply filter_In in Ht. tauto.
Qed.

Lemma run_latches (es : list Event) :
  forall w,
    (forall k, In k (pending w) -> final k = true) ->
    isReady w = true -> isReady (run es w) = true.
Proof.
  induction es as [|e es IH]; intros w Hw Hr; cbn; [ exact Hr | ].
  destruct (step_latches w e Hw) as [Hp Hs].
  apply IH; auto.
Qed.

Lemma run_pending_final (es : list Event) :
  forall w,
    (forall k, In k (pending w) -> final k = true) ->
    forall k, In k (pending (run es w)) -> final k = true.
Proof.
  induction es as [|e es IH]; intros w Hw; cbn; [ exact Hw | ].
  apply IH. apply (step_latches w e Hw).
Qed.

(** *** At most one call of the setter *)

Lemma pending_length (w : World) :
  length (pending w) = length (timers w) + length (frame_queue w).
Proof. unfold pending. rewrite length_app, length_map. reflexivity. Qed.

Lemma invoke_count (w : World) (cb : Callback) :
  length (pending (invoke w cb)) + length (flips (invoke w cb))
  = S (length (pending w) + length (flips w)).
Proof.
  rewrite !pending_length. destruct cb; cbn; rewrite length_app; cbn; lia.
Qed.

Lemma fold_invoke_count (l : list Callback) :
  forall w,
    length (pending (fold_left invoke l w))
    + length (flips (fold_left invoke l w))
    = length l + (length (pending w) + length (flips w)).
Proof.
  induction l as [|cb l IH]; intros w; cbn [fold_left length].
  - reflexivity.
  - rewrite IH, invoke_count. lia.
Qed.

Lemma step_count (w : World) (e : Event) :
  length (pending (step w e)) + length (flips (step w e))
  <= length (pending w) + length (flips w).
Proof.
  destruct e as [ms| |]; cbn [step].
  - rewrite fold_invoke_count, length_map, !pending_length. cbn.
    pose proof (filter_length (is_due (now w + ms)) (timers w)). lia.
  - rewrite fold_invoke_count, !pending_length. cbn. lia.
  - destruct (mounted w); [ | lia ].
    rewrite !pending_length.
    destruct (cleanup w) as [id|]; cbn; [ | lia ].
    pose proof (filter_length_le
                  (fun t => negb (Nat.eqb (timer_id t) id)) (timers w)).
    lia.
Qed.

Lemma run_count (es : list Event) :
  forall w,
    length (pending (run es w)) + length (flips (run es w))
    <= length (pending w) + length (flips w).
Proof.
  induction es as [|e es IH]; intros w; cbn; [ lia | ].
  etransitivity; [ apply IH | apply step_count ].
Qed.

(** *** Not before the delay and the frames *)

Lemma step_now (w : World) (e : Event) :
  now (step w e)
  = (now w + match e with elapse ms => ms | _ => 0 end)%N.
Proof.
  destruct e as [ms| |]; cbn [step].
  - rewrite fold_invoke_now. reflexivity.
  - rewrite fold_invoke_now. cbn. lia.
  - destruct (mounted w); [ | lia ].
    destruct (cleanup w); cbn; lia.
Qed.

Lemma run_now (es : list Event) :
  forall w, now (run es w) = (now w + elapsed es)%N.
Proof.
  induction es as [|e es IH]; intros w; cbn [run fold_left elapsed fold_right].
  - lia.
  - fold (run es (step w e)). rewrite IH, step_now.
    fold (elapsed es). destruct e; lia.
Qed.

Lemma invoke_on_schedule (c : Copy) (f : nat) (w : World) (cb : Callback) :
  (delay c <= now w)%N ->
  depth (on_timeout c) <= depth cb + f ->
  on_schedule c f w -> on_schedule c f (invoke w cb).
Proof.
  intros Hnow Hd (Ht & Hq & Hr). destruct cb as [b|k0]; cbn in Hd.
  - split; [ exact Ht | split; [ exact Hq | ] ].
    intros _. cbn. split; assumption.
  - split; [ exact Ht | split; [ | exact Hr ] ].
    intros k Hk. cbn in Hk. apply in_app_iff in Hk.
    destruct Hk as [Hk|[<-|[]]].
    + apply Hq. exact Hk.
    + cbn. split; [ exact Hnow | lia ].
Qed.

Lemma fold_invoke_on_schedule (c : Copy) (f : nat) (l : list Callback) :
  forall w,
    (forall k, In k l ->
       (delay c <= now w)%N /\ depth (on_timeout c) <= depth k + f) ->
    on_schedule c f w -> on_schedule c f (fold_left invoke l w).
Proof.
  induction l as [|cb l IH]; intros w Hl Hw; cbn; [ exact Hw | ].
  apply IH.
  - intros k Hk. rewrite invoke_now. apply Hl. right. exact Hk.
  - destruct (Hl cb (or_introl eq_refl)) as [Hnow Hd].
    apply invoke_on_schedule; assumption.
Qed.

Lemma step_on_schedule (c : Copy) (f : nat) (w : World) (e : Event) :
  on_schedule c f w ->
  on_schedule c (match e with frame => S f | _ => f end) (step w e).
Proof.
  intros (Ht & Hq & Hr). destruct e as [ms| |]; cbn [step].
  - apply fold_invoke_on_schedule.
    + intros k Hk. apply in_map_iff in Hk. destruct Hk as (t & <- & Hin).
      apply filter_In in Hin. destruct Hin as [Hin Hdue].
      unfold is_due in Hdue. apply N.leb_le in Hdue.
      destruct (Ht t Hin) as [H1 H2]. cbn. split; [ lia | exact H2 ].
    + split; [ | split ]; cbn.
      * intros t Hin. apply filter_In in Hin. apply Ht. tauto.
      * intros k Hk. destruct (Hq k Hk). split; [ lia | assumption ].
      * intros Hrd. destruct (Hr Hrd). split; [ lia | assumption ].
  - apply fold_invoke_on_schedule.
    + intros k Hk. destruct (Hq k Hk) as [H1 H2]. cbn.
      split; [ exact H1 | lia ].
    + split; [ | split ]; cbn.
      * intros t Hin. destruct (Ht t Hin). split; [ assumption | lia ].
      * intros k [].
      * intros Hrd. destruct (Hr Hrd). split; [ assumption | lia ].
  - destruct (mounted w); [ | split; [ | split ]; assumption ].
    destruct (cleanup w) as [id|]; (split; [ | split ]); cbn;
      try assumption.
    intros t Hin. apply filter_In in Hin. apply Ht. tauto.
Qed.

Lemma run_on_schedule (c : Copy) (es : list Event) :
  forall f w, on_schedule c f w -> on_schedule c (frames es + f) (run es w).
Proof.
  induction es as [|e es IH]; intros f w Hw; [ exact Hw | ].
  cbn [run fold_left]. fold (run es (step w e)).
  pose proof (IH _ _ (step_on_schedule e Hw)) as H.
  destruct e; unfold frames in *; cbn [filter length] in *;
    try exact H.
  replace (S (length (filter (fun e => match e with
                                       | frame => true
                                       | _ => false
                                       end) es)) + f)
    with (length (filter (fun e => match e with
                                   | frame => true
                                   | _ => false
                                   end) es) + S f) by lia.
  exact H.
Qed.

Lemma mount_on_schedule (c : Copy) : on_schedule c 0 (mount c).
Proof.
  split; [ | split ]; cbn.
  - intros t [<-|[]]. cbn. split; lia.
  - intros k [].
  - discriminate.
Qed.

(** The first copy, event by event: nothing before the delay, nothing
    with fewer than three frames after it, ready with three. *)
Example gate_500_timeline :
  isReady (run [ elapse 499; frame; frame; frame; frame ]
             (mount useReanimatedReady)) = false
  /\ isReady (run [ elapse 500; frame; frame ]
                (mount useReanimatedReady)) = false
  /\ isReady (run [ elapse 500; frame; frame; frame ]
                (mount useReanimatedReady)) = true
  /\ frame_queue (run [ elapse 500; frame ] (mount useReanimatedReady))
     = [ requestAnimationFrame (setIsReady true) ].
Proof. repeat split. Qed.

(** *** Unmounting *)

(** Once nothing is pending, nothing happens any more. *)
Lemma step_quiet (w : World) (e : Event) :
  timers w = [] -> frame_queue w = [] ->
  timers (step w e) = [] /\ frame_queue (step w e) = []
  /\ flips (step w e) = flips w /\ isReady (step w e) = isReady w.
Proof.
  intros Ht Hq. destruct e as [ms| |]; cbn [step].
  - rewrite Ht. cbn. auto.
  - rewrite Hq. cbn. auto.
  - destruct (mounted w); [ | auto ].
    destruct (cleanup w); cbn; rewrite Ht, Hq; cbn; auto.
Qed.

Lemma run_quiet (es : list Event) :
  forall w,
    timers w = [] -> frame_queue w = [] ->
    flips (run es w) = flips w /\ isReady (run es w) = isReady w.
Proof.
  induction es as [|e es IH]; intros w Ht Hq; cbn; [ auto | ].
  destruct (step_quiet w e Ht Hq) as (Ht' & Hq' & Hf & Hr).
  destruct (IH _ Ht' Hq') as [Hf' Hr'].
  unfold run in *. split; congruence.
Qed.

(** The cleanup does its work while the timer is still waiting: a
    component unmounted during the delay never sees its setter called. *)
Lemma unmount_during_delay_cancels (c : Copy) (ms : N) (es : list Event) :
  (ms < delay c)%N ->
  flips (run (elapse ms :: unmount :: es) (mount c)) = []
  /\ isReady (run (elapse ms :: unmount :: es) (mount c)) = false.
Proof.
  intros Hms.
  assert (E : step (step (mount c) (elapse ms)) unmount
              = mkWorld ms [] 1 [] false false None []).
  { cbn. unfold is_due. cbn.
    destruct (N.leb_spec (delay c) ms) as [H|H]; [ lia | ].
    cbn. reflexivity. }
  cbn [run fold_left]. rewrite E.
  apply (run_quiet es (mkWorld ms [] 1 [] false false None []));
    reflexivity.
Qed.

Lemma unmount_during_delay_cancels_witness :
  flips (run [ elapse 499; unmount; elapse 1000; frame; frame; frame ]
           (mount useReanimatedReady)) = [].
Proof.
  apply (@unmount_during_delay_cancels useReanimatedReady 499%N
           [ elapse 1000; frame; frame; frame ]).
  reflexivity.
Defined.

(** C8: the cleanup clears the timer only.  Unmounting after the timer
    has fired, while the nested animation frames are still to come, leaves
    the chain running: the frames that follow end in a call of
    [setIsReady] on the unmounted component ([false] in the record of
    calls), in each of the three copies. *)
Theorem unmount_between_frames_still_calls_setter :
  flips (run [ elapse 500; unmount; frame; frame; frame ]
           (mount useReanimatedReady)) = [ false ]
  /\ flips (run [ elapse 500; frame; frame; unmount; frame ]
              (mount useReanimatedReady)) = [ false ]
  /\ flips (run [ elapse 1000; unmount; frame; frame; frame; frame; frame ]
              (mount useReanimatedReady_1000)) = [ false ]
  /\ flips (run [ elapse 800; unmount; frame; frame; frame; frame ]
              (mount useReanimatedReady_800)) = [ false ]
  /\ flips (run [ elapse 500; frame; frame; frame ]
              (mount useReanimatedReady)) = [ true ].
Proof. repeat split. Qed.

(** C9: for each copy of the hook the flag is false at mount; it can
    only be true once the delay has elapsed and as many frames have passed
    as the copy nests; once true it stays true whatever happens next; the
    setter is called at most once; and the flag is true after the delay
    and that many frames. *)
Theorem readiness_flag_latches (c : Copy) (Hc : In c copies) :
  isReady (mount c) = false
  /\ (forall es,
        isReady (run es (mount c)) = true ->
        (delay c <= elapsed es)%N /\ depth (on_timeout c) <= frames es)
  /\ (forall es es',
        isReady (run es (mount c)) = true ->
        isReady (run (es ++ es') (mount c)) = true)
  /\ (forall es, length (flips (run es (mount c))) <= 1)
  /\ isReady (run (elapse (delay c) :: repeat frame (depth (on_timeout c)))
                (mount c)) = true.
Proof.
  assert (Hfinal : forall k, In k (pending (mount c)) -> final k = true).
  { intros k Hk. cbn in Hk. destruct Hk as [<-|[]].
    cbn in Hc. destruct Hc as [<-|[<-|[<-|[]]]]; reflexivity. }
  split; [ reflexivity | ].
  split; [ | split; [ | split ] ].
  - intros es Hr.
    destruct (run_on_schedule es (mount_on_schedule c)) as (_ & _ & H).
    specialize (H Hr). rewrite run_now in H.
    change (now (mount c)) with 0%N in H.
    destruct H as [H1 H2]. rewrite N.add_0_l in H1.
    rewrite Nat.add_0_r in H2. split; assumption.
  - intros es es' Hr. unfold run. rewrite fold_left_app.
    apply run_latches; [ | exact Hr ].
    apply run_pending_final. exact Hfinal.
  - intros es. pose proof (run_count es (mount c)) as H.
    change (length (pending (mount c)) + length (flips (mount c)))
      with 1 in H.
    lia.
  - cbn in Hc. destruct Hc as [<-|[<-|[<-|[]]]]; reflexivity.
Qed.

Lemma readiness_flag_latches_witness :
  In useReanimatedReady copies
  /\ isReady (run ([ elapse 200; elapse 300; frame; frame; frame ]
                   ++ [ elapse 50; frame; unmount ])
                (mount useReanimatedReady)) = true.
Proof.
  split; [ left; reflexivity | ].
  destruct (@readiness_flag_latches useReanimatedReady
              (or_introl eq_refl)) as (_ & _ & H & _).
  apply H. reflexivity.
Defined.

End ReadinessGate.

(** * Further properties of the code *)

(** ** Renders that change nothing *)

Section SameProps.
Variables V P : Type.
Variable h : Hook V P.
Hypothesis ref_eqb_refl : forall v, ref_eqb h v v = true.

Lemma areHookInputsEqual_refl (l : list (Dep V)) :
  areHookInputsEqual (ref_eqb h) l l = true.
Proof.
  induction l as [|d l IH]; [ reflexivity | ].
  cbn [areHookInputsEqual]. rewrite IH, andb_true_r.
  destruct d as [b|x|v]; cbn [object_is].
  - apply bool_eqb_refl.
  - apply same_value_refl.
  - apply ref_eqb_refl.
Qed.

Lemma rerender_same_props (p : P) (st : V -> number) :
  rerender h p (mkInstance st (dependencies h p))
  = (mkInstance st (dependencies h p), []).
Proof.
  unfold rerender. cbn [last_deps store].
  rewrite areHookInputsEqual_refl. reflexivity.
Qed.

Lemma rerenders_same_props (p : P) (n : nat) (st : V -> number) :
  rerenders h (repeat p n) (mkInstance st (dependencies h p))
  = (mkInstance st (dependencies h p), repeat [] n).
Proof.
  induction n as [|n IH]; [ reflexivity | ].
  cbn [repeat rerenders]. rewrite rerender_same_props. cbn [fst snd].
  rewrite IH. reflexivity.
Qed.

Lemma renders_same_props (p : P) (n : nat) :
  renders h p (repeat p n)
  = (fst (mount h p), effect h p :: repeat [] n).
Proof.
  unfold renders. cbn [mount fst snd].
  rewrite rerenders_same_props. reflexivity.
Qed.

End SameProps.

Lemma staggered_scalar_eqb_refl (v : StaggeredEntrance.Scalar) :
  StaggeredEntrance.scalar_eqb v v = true.
Proof. destruct v; reflexivity. Qed.

Lemma bottom_sheet_scalar_eqb_refl (v : BottomSheet.Scalar) :
  BottomSheet.scalar_eqb v v = true.
Proof. destruct v; reflexivity. Qed.

Lemma splash_scalar_eqb_refl (v : Splash.Scalar) :
  Splash.scalar_eqb v v = true.
Proof. destruct v; reflexivity. Qed.

(** X1: however often a mounted component renders again with the options
    (and, for the bottom sheet, the [visible]) of its first render, the
    three hooks run their effect once, at mount: the later renders call
    the engine not at all and leave the scalars alone. *)
Theorem hooks_run_effect_once_for_same_props (n : nat) :
  (forall o : StaggeredEntrance.Options,
      let h := StaggeredEntrance.useStaggeredEntrance in
      renders h o (repeat o n)
      = (fst (mount h o), StaggeredEntrance.effect_body o :: repeat [] n))
  /\ (forall (SCREEN_HEIGHT : number) (p : BottomSheet.Props),
        let h := BottomSheet.useBottomSheetAnimation SCREEN_HEIGHT in
        renders h p (repeat p n)
        = (fst (mount h p),
           BottomSheet.effect_body SCREEN_HEIGHT p :: repeat [] n))
  /\ (forall o : Splash.Options,
        let h := Splash.useSplashAnimation in
        renders h o (repeat o n)
        = (fst (mount h o), Splash.effect_body o :: repeat [] n)).
Proof.
  split; [ | split ].
  - intros o h.
    apply (renders_same_props h staggered_scalar_eqb_refl o n).
  - intros H p h.
    apply (renders_same_props h bottom_sheet_scalar_eqb_refl p n).
  - intros o h.
    apply (renders_same_props h splash_scalar_eqb_refl o n).
Qed.

(** ** The staggered entrance, render after render *)

(** X2: the effect runs again exactly when [enabled], [delay], [duration]
    or [translateYOffset] differs from the render before: also a change
    of the otherwise unused [delay] runs the body again. *)
Theorem staggered_rerender_triggers (o o' : StaggeredEntrance.Options)
    (st : StaggeredEntrance.Scalar -> number) :
  let h := StaggeredEntrance.useStaggeredEntrance in
  let unchanged :=
    Bool.eqb (nullish (StaggeredEntrance.enabled o') true)
      (nullish (StaggeredEntrance.enabled o) true)
    && same_value (nullish (StaggeredEntrance.delay o') 100%float)
         (nullish (StaggeredEntrance.delay o) 100%float)
    && same_value (nullish (StaggeredEntrance.duration o') 600%float)
         (nullish (StaggeredEntrance.duration o) 600%float)
    && same_value (nullish (StaggeredEntrance.translateYOffset o') 30%float)
         (nullish (StaggeredEntrance.translateYOffset o) 30%float) in
  snd (rerender h o' (mkInstance st (StaggeredEntrance.deps o)))
  = if unchanged then [] else StaggeredEntrance.effect_body o'.
Proof.
  intros h unchanged. subst unchanged. unfold rerender.
  cbn -[same_value StaggeredEntrance.effect_body].
  rewrite !andb_true_r.
  destruct (Bool.eqb _ _); cbn [andb]; [ | reflexivity ].
  destruct (same_value (nullish (StaggeredEntrance.delay o') 100%float) _);
    cbn [andb]; [ | reflexivity ].
  destruct (same_value (nullish (StaggeredEntrance.duration o') 600%float) _);
    cbn [andb]; [ | reflexivity ].
  destruct (same_value _ _); reflexivity.
Qed.





Lemma staggered_final_is_kept (o : StaggeredEntrance.Options)
    (i : Instance StaggeredEntrance.Scalar) :
  StaggeredEntrance.read_all (store i) = [ 1; 1; 1; 0; 1; 0; 1; 0 ]%float ->
  StaggeredEntrance.read_all
    (store (fst (rerender StaggeredEntrance.useStaggeredEntrance o i)))
  = [ 1; 1; 1; 0; 1; 0; 1; 0 ]%float.
Proof.
  intros Hi. unfold rerender.
  destruct (areHookInputsEqual _ _ _); cbn [fst store]; [ exact Hi | ].
  unfold run_effect. cbn [effect StaggeredEntrance.useStaggeredEntrance].
  unfold StaggeredEntrance.effect_body.
  destruct (nullish (StaggeredEntrance.enabled o) true); cbn [negb].
  - exact Hi.
  - reflexivity.
Qed.

(** X4: once the component was mounted with [enabled] false, the eight
    scalars read their terminal values after every later render, whatever
    its options: switching [enabled] on afterwards starts the sequence
    but does not put the scalars back to where an entrance begins. *)
Theorem staggered_disabled_mount_stays_final
    (o : StaggeredEntrance.Options) (os : list StaggeredEntrance.Options)
    (Hoff : nullish (StaggeredEntrance.enabled o) true = false) :
  StaggeredEntrance.read_all
    (store (fst (renders StaggeredEntrance.useStaggeredEntrance o os)))
  = [ 1; 1; 1; 0; 1; 0; 1; 0 ]%float.
Proof.
  unfold renders. cbn [fst].
  assert (H0 : StaggeredEntrance.read_all
                 (store (fst (mount StaggeredEntrance.useStaggeredEntrance o)))
               = [ 1; 1; 1; 0; 1; 0; 1; 0 ]%float).
  { unfold mount, run_effect.
    cbn [fst store effect StaggeredEntrance.useStaggeredEntrance].
    unfold StaggeredEntrance.effect_body. rewrite Hoff. reflexivity. }
  revert H0.
  generalize (fst (mount StaggeredEntrance.useStaggeredEntrance o)).
  induction os as [|o' os IH]; intros i Hi; [ exact Hi | ].
  cbn [rerenders fst]. apply IH. apply staggered_final_is_kept. exact Hi.
Qed.

Lemma staggered_disabled_mount_stays_final_witness :
  let off := StaggeredEntrance.mkOptions None None None (Some false) in
  let on := StaggeredEntrance.mkOptions None None None (Some true) in
  StaggeredEntrance.read_all
    (store (fst (renders StaggeredEntrance.useStaggeredEntrance off [ on ])))
  = [ 1; 1; 1; 0; 1; 0; 1; 0 ]%float
  /\ snd (renders StaggeredEntrance.useStaggeredEntrance off [ on ])
     = [ StaggeredEntrance.final_values;
         [ start (StaggeredEntrance.entrance 600%float) ] ].
Proof.
  intros off on. split.
  - apply (@staggered_disabled_mount_stays_final off [ on ]). reflexivity.
  - vm_compute. reflexivity.
Defined.

(** ** The bottom sheet and the splash screen, render after render *)

Lemma bottom_sheet_effect_is_one_pair (SCREEN_HEIGHT : number)
    (p : BottomSheet.Props) :
  exists a b ms,
    BottomSheet.effect_body SCREEN_HEIGHT p
    = [ start (BottomSheet.pair a b ms) ].
Proof.
  destruct p as [[|] o]; cbn; do 3 eexists; reflexivity.
Qed.

Lemma bottom_sheet_effect_keeps_store (SCREEN_HEIGHT : number)
    (p : BottomSheet.Props) (st : BottomSheet.Scalar -> number) :
  run_effect (BottomSheet.useBottomSheetAnimation SCREEN_HEIGHT) p st = st.
Proof.
  unfold run_effect. cbn [effect BottomSheet.useBottomSheetAnimation].
  destruct (bottom_sheet_effect_is_one_pair SCREEN_HEIGHT p)
    as (a & b & ms & E).
  rewrite E. reflexivity.
Qed.

Lemma bottom_sheet_rerenders (SCREEN_HEIGHT : number)
    (ps : list BottomSheet.Props) :
  forall i,
    store (fst (rerenders (BottomSheet.useBottomSheetAnimation SCREEN_HEIGHT)
                  ps i)) = store i
    /\ Forall (fun cs => cs = []
                         \/ exists a b ms,
                              cs = [ start (BottomSheet.pair a b ms) ])
         (snd (rerenders (BottomSheet.useBottomSheetAnimation SCREEN_HEIGHT)
                 ps i)).
Proof.
  induction ps as [|p ps IH]; intros i; cbn [rerenders fst snd].
  - split; [ reflexivity | constructor ].
  - destruct (IH (fst (rerender
                         (BottomSheet.useBottomSheetAnimation SCREEN_HEIGHT)
                         p i))) as [Hs Hc].
    split.
    + rewrite Hs. unfold rerender.
      destruct (areHookInputsEqual _ _ _); cbn [fst store];
        [ reflexivity | ].
      apply bottom_sheet_effect_keeps_store.
    + constructor; [ | exact Hc ].
      destruct (rerender_calls
                  (BottomSheet.useBottomSheetAnimation SCREEN_HEIGHT) p i)
        as [E|E]; rewrite E; [ left; reflexivity | right ].
      apply bottom_sheet_effect_is_one_pair.
Qed.

(** X5: the bottom-sheet hook never writes its scalars itself, and a
    render starts at most one composition, which is always the parallel
    pair: slide and backdrop are driven together, over one and the same
    duration, in every render of every history of [visible] and
    options. *)
Theorem bottom_sheet_only_starts_pairs (SCREEN_HEIGHT : number)
    (p : BottomSheet.Props) (ps : list BottomSheet.Props) :
  let h := BottomSheet.useBottomSheetAnimation SCREEN_HEIGHT in
  store (fst (renders h p ps)) = BottomSheet.initial_values SCREEN_HEIGHT p
  /\ Forall (fun cs => cs = []
                       \/ exists a b ms,
                            cs = [ start (BottomSheet.pair a b ms) ])
       (snd (renders h p ps)).
Proof.
  cbn zeta. unfold renders. cbn [fst snd].
  destruct (bottom_sheet_rerenders SCREEN_HEIGHT ps
              (fst (mount (BottomSheet.useBottomSheetAnimation SCREEN_HEIGHT)
                      p))) as [Hs Hc].
  split.
  - rewrite Hs. unfold mount. cbn [fst store].
    apply bottom_sheet_effect_keeps_store.
  - constructor; [ | exact Hc ].
    right. apply bottom_sheet_effect_is_one_pair.
Qed.



(** ** The preset factories, source and build *)

(** X7: without a preset argument [createSpringAnimation] builds the
    spring of the "spring" preset: tension 100, friction 8, native
    driver.  An explicit preset's tension and friction are passed on as
    they are; its [useNativeDriver] is used when it gives one, also when
    it is false, and the driver is on when it gives none. *)
Theorem createSpringAnimation_resolves_preset (V : Type) (v : V)
    (t : number) :
  Presets.createSpringAnimation v t None
  = spring v (mkSpring t 100%float 8%float true)
  /\ (forall (te fr : number) (b : bool),
        Presets.createSpringAnimation v t
          (Some (Presets.mkSpringPreset te fr (Some b)))
        = spring v (mkSpring t te fr b))
  /\ (forall te fr : number,
        Presets.createSpringAnimation v t
          (Some (Presets.mkSpringPreset te fr None))
        = spring v (mkSpring t te fr true)).
Proof. repeat split. Qed.

(** X8: the factories of the TypeScript source spread the preset, those
    of the build copy its fields.  Both hand the same value, target,
    duration (tension, friction) and easing to the engine; the build is
    the source with [useNativeDriver] defaulted to true.  They differ
    exactly for a preset without [useNativeDriver]: the source leaves the
    field out, the build switches the native driver on. *)
Theorem preset_factories_source_and_build (V : Type) (v : V) (t : number) :
  (forall p : option Presets.AnimationTimingConfig,
      let s := PresetsSource.createTimingAnimation v t p in
      Presets.createTimingAnimation v t p
      = timing (fst s)
          (mkTiming (PresetsSource.toValue (snd s))
             (PresetsSource.duration (snd s))
             (PresetsSource.easing (snd s))
             (nullish (PresetsSource.useNativeDriver (snd s)) true)))
  /\ (forall p : option Presets.AnimationSpringConfig,
        let s := PresetsSource.createSpringAnimation v t p in
        Presets.createSpringAnimation v t p
        = spring (fst s)
            (mkSpring (PresetsSource.s_toValue (snd s))
               (PresetsSource.tension (snd s))
               (PresetsSource.friction (snd s))
               (nullish (PresetsSource.s_useNativeDriver (snd s)) true)))
  /\ (forall (d : number) (e : option EasingFn),
        PresetsSource.useNativeDriver
          (snd (PresetsSource.createTimingAnimation v t
                  (Some (Presets.mkTimingPreset d e None)))) = None
        /\ Presets.createTimingAnimation v t
             (Some (Presets.mkTimingPreset d e None))
           = timing v (mkTiming t d e true))
  /\ PresetsSource.useNativeDriver
       (snd (PresetsSource.createTimingAnimation v t None)) = Some true.
Proof. repeat split. Qed.

(** ** The two copies of the preset tables *)

(** X9: the tables of AnimationConfigService have an entry for every
    preset, and it is the entry AnimationUtils returns for it, for the
    timing configs as for the spring configs. *)
Theorem config_service_agrees_with_utils
    (preset : UseAnimation.AnimationPreset) :
  AnimationConfigService.getTimingConfig preset
  = Some (UseAnimation.getTimingConfig preset)
  /\ AnimationConfigService.getSpringConfig preset
     = Some (AnimationUtils.getSpringConfig preset).
Proof. destruct preset; split; reflexivity. Qed.

(** ** The worklet hook: durations, directions, springs *)

(** X10: in fadeIn, fadeOut and the four slideIn transitions the config
    counts through its duration only: the easing it carries is ignored.
    The duration used is the config's when that is a number other than 0,
    -0 and NaN (a negative one is passed on as it is), and NORMAL = 300
    in every other case, a missing config included. *)
Theorem timed_transitions_duration (distance : option number)
    (config : option UseAnimation.AnimationTimingConfig) :
  let used :=
    match config with
    | Some c =>
        match UseAnimation.duration c with
        | Some d => if truthy d then d else 300%float
        | None => 300%float
        end
    | None => 300%float
    end in
  map UseAnimation.durations (UseAnimation.timed_transitions distance config)
  = repeat [ used ] 6
  /\ UseAnimation.timed_transitions distance config
     = UseAnimation.timed_transitions distance
         (Some (UseAnimation.mkConfig (Some used) None))
  /\ truthy (-250)%float = true
  /\ truthy PrimFloat.nan = false
  /\ truthy (-0)%float = false.
Proof.
  cbn zeta.
  assert (Hused : forall d : number,
             or_else (Some (if truthy d then d else 300%float)) 300%float
             = (if truthy d then d else 300%float)).
  { intros d. unfold or_else. destruct (truthy d) eqn:E.
    - rewrite E. reflexivity.
    - reflexivity. }
  split; [ | split; [ | repeat split ] ].
  - destruct config as [[[d|] e]|]; reflexivity.
  - destruct config as [[[d|] e]|]; try reflexivity.
    unfold UseAnimation.timed_transitions, UseAnimation.fadeIn,
      UseAnimation.fadeOut, UseAnimation.slideInUp,
      UseAnimation.slideInDown, UseAnimation.slideInLeft,
      UseAnimation.slideInRight.
    cbn [UseAnimation.config_or UseAnimation.duration].
    rewrite Hused. reflexivity.
Qed.

(** X11: sliding in from the top (the left) by a distance is sliding in
    from the bottom (the right) by the opposite distance, for every
    config; with no distance given it is a slide by -100. *)
Theorem slide_directions_mirror
    (config : option UseAnimation.AnimationTimingConfig) :
  (forall d : number,
      UseAnimation.slideInDown (Some d) config
      = UseAnimation.slideInUp (Some (PrimFloat.opp d)) config
      /\ UseAnimation.slideInLeft (Some d) config
         = UseAnimation.slideInRight (Some (PrimFloat.opp d)) config)
  /\ UseAnimation.slideInDown None config
     = UseAnimation.slideInUp (Some (-100)%float) config
  /\ UseAnimation.slideInLeft None config
     = UseAnimation.slideInRight (Some (-100)%float) config.
Proof. repeat split. Qed.

(** X12: scaleIn and scaleOut always hand the engine a damping and a
    stiffness that are neither zero nor missing, and never a mass.  With
    no config they use the preset (15, 150); a config that leaves one of
    the two out, or gives 0 for it, gets the constants 10 and 100 for it
    and not the preset's value.  bounce, in contrast, forwards the
    caller's config untouched to its three springs. *)
Theorem scale_transitions_springs :
  (forall config : option Worklet.AnimationSpringConfig,
      exists d s : number,
        UseAnimationSprings.springs (UseAnimationSprings.scaleIn config)
        = [ Some (Worklet.mkSpringConfig (Some d) (Some s) None) ]
        /\ UseAnimationSprings.springs (UseAnimationSprings.scaleOut config)
           = [ Some (Worklet.mkSpringConfig (Some d) (Some s) None) ]
        /\ PrimFloat.eqb d 0%float = false
        /\ PrimFloat.eqb s 0%float = false)
  /\ UseAnimationSprings.springs (UseAnimationSprings.scaleIn None)
     = [ Some (Worklet.mkSpringConfig (Some 15%float) (Some 150%float)
                 None) ]
  /\ (forall (s : number) (m : option number),
        UseAnimationSprings.springs
          (UseAnimationSprings.scaleIn
             (Some (Worklet.mkSpringConfig None (Some s) m)))
        = [ Some (Worklet.mkSpringConfig (Some 10%float)
                    (Some (if truthy s then s else 100%float)) None) ])
  /\ (forall (d : number) (m : option number),
        UseAnimationSprings.springs
          (UseAnimationSprings.scaleIn
             (Some (Worklet.mkSpringConfig (Some d) None m)))
        = [ Some (Worklet.mkSpringConfig
                    (Some (if truthy d then d else 10%float))
                    (Some 100%float) None) ])
  /\ (forall c : Worklet.AnimationSpringConfig,
        UseAnimationSprings.springs (UseAnimationSprings.bounce (Some c))
        = [ Some c; Some c; Some c ]).
Proof.
  split; [ | repeat split ].
  intros config.
  exists (or_else
            (Worklet.damping
               (UseAnimationSprings.config_or config UseAnimation.SCALE_IN))
            AnimationUtils.SPRING.DAMPING),
    (or_else
       (Worklet.stiffness
          (UseAnimationSprings.config_or config UseAnimation.SCALE_IN))
       AnimationUtils.SPRING.STIFFNESS).
  split; [ reflexivity | ].
  split; [ destruct config; reflexivity | ].
  split; apply or_else_nonzero; reflexivity.
Qed.

(** ** Gestures *)

Section Gestures.
Import UseGesture.

Lemma handle_app (E : Type)
    (handler : Shared -> E -> Shared * list JsCall) (l1 l2 : list E) :
  forall s,
    handle handler (l1 ++ l2) s
    = (fst (handle handler l2 (fst (handle handler l1 s))),
       snd (handle handler l1 s)
       ++ snd (handle handler l2 (fst (handle handler l1 s)))).
Proof.
  induction l1 as [|e l1 IH]; intros s; cbn [app handle fst snd].
  - destruct (handle handler l2 s); reflexivity.
  - rewrite IH. cbn [fst snd]. rewrite app_assoc. reflexivity.
Qed.

(** During one pan, every update is taken from where the gesture
    started. *)
Lemma pan_updates_from_saved (o : Handlers) (ups : list (number * number)) :
  forall (u : number * number) (s : Shared),
    let r := handle (pan_handler o) (pan_updates (ups ++ [u])) s in
    fst r
    = mkShared (PrimFloat.add (savedTranslateX s) (fst u))
        (PrimFloat.add (savedTranslateY s) (snd u))
        (scale s) (savedTranslateX s) (savedTranslateY s) (savedScale s)
    /\ snd r
       = flat_map
           (fun v =>
              call_if (has_onUpdate o)
                (onUpdate (PrimFloat.add (savedTranslateX s) (fst v))
                   (PrimFloat.add (savedTranslateY s) (snd v))))
           (ups ++ [u]).
Proof.
  induction ups as [|v ups IH]; intros u s.
  - split; reflexivity.
  - cbn [app pan_updates map handle fst snd flat_map].
    fold (pan_updates (ups ++ [u])).
    destruct (IH u (fst (pan_handler o s (pan_update (fst v) (snd v)))))
      as [Hs Hc].
    cbn zeta in Hs, Hc. rewrite Hs, Hc. split; reflexivity.
Qed.

(** X13: a pan moves the element by the translation of the last update,
    counted from where it was when the gesture started: the updates of one
    gesture do not add up, and the saved position is the starting one. *)
Theorem pan_moves_from_start (o : Handlers) (s : Shared)
    (ups : list (number * number)) (u : number * number) :
  let r := handle (pan_handler o) (pan_start :: pan_updates (ups ++ [u])
                                     ++ [ pan_end ]) s in
  fst r
  = mkShared (PrimFloat.add (translateX s) (fst u))
      (PrimFloat.add (translateY s) (snd u))
      (scale s) (translateX s) (translateY s) (savedScale s).
Proof.
  cbn zeta. cbn [handle fst]. rewrite handle_app. cbn [fst].
  destruct (pan_updates_from_saved o ups u (fst (pan_handler o s pan_start)))
    as [Hs _].
  cbn zeta in Hs. rewrite Hs. reflexivity.
Qed.

(** X14: the handlers of a pan are called in the order start, one update
    per reported update, end; each update with the position it has just
    written, and the end with the very position of the last update.  A
    handler that is not given is simply not called. *)
Theorem pan_calls (o : Handlers) (s : Shared)
    (ups : list (number * number)) (u : number * number) :
  let at_ v := onUpdate (PrimFloat.add (translateX s) (fst v))
                 (PrimFloat.add (translateY s) (snd v)) in
  snd (handle (pan_handler o)
         (pan_start :: pan_updates (ups ++ [u]) ++ [ pan_end ]) s)
  = call_if (has_onStart o) onStart
    ++ flat_map (fun v => call_if (has_onUpdate o) (at_ v)) (ups ++ [u])
    ++ call_if (has_onEnd o)
         (onEnd (PrimFloat.add (translateX s) (fst u))
            (PrimFloat.add (translateY s) (snd u))).
Proof.
  cbn zeta. cbn [handle fst snd]. rewrite handle_app. cbn [fst snd].
  destruct (pan_updates_from_saved o ups u (fst (pan_handler o s pan_start)))
    as [Hs Hc].
  cbn zeta in Hs, Hc. rewrite Hs, Hc. cbn.
  rewrite app_nil_r. reflexivity.
Qed.

Lemma pinch_updates_from_saved (o : Handlers) (ups : list number) :
  forall (u : number) (s : Shared),
    let r := handle (pinch_handler o) (pinch_updates (ups ++ [u])) s in
    fst r
    = mkShared (translateX s) (translateY s)
        (PrimFloat.mul (savedScale s) u)
        (savedTranslateX s) (savedTranslateY s) (savedScale s)
    /\ snd r
       = flat_map
           (fun v =>
              call_if (has_onUpdate o)
                (onPinchUpdate (PrimFloat.mul (savedScale s) v)))
           (ups ++ [u]).
Proof.
  induction ups as [|v ups IH]; intros u s.
  - split; reflexivity.
  - cbn [app pinch_updates map handle fst snd flat_map].
    fold (pinch_updates (ups ++ [u])).
    destruct (IH u (fst (pinch_handler o s (pinch_update v)))) as [Hs Hc].
    cbn zeta in Hs, Hc. rewrite Hs, Hc. split; reflexivity.
Qed.

(** X15: a pinch scales the element by the factor of the last update,
    applied to the scale it had when the gesture started; the end handler
    is called with that scale. *)
Theorem pinch_scales_from_start (o : Handlers) (s : Shared)
    (ups : list number) (u : number) :
  let r := handle (pinch_handler o)
             (pinch_start :: pinch_updates (ups ++ [u]) ++ [ pinch_end ])
             s in
  fst r
  = mkShared (translateX s) (translateY s) (PrimFloat.mul (scale s) u)
      (savedTranslateX s) (savedTranslateY s) (scale s)
  /\ snd r
     = call_if (has_onStart o) onStart
       ++ flat_map
            (fun v =>
               call_if (has_onUpdate o)
                 (onPinchUpdate (PrimFloat.mul (scale s) v)))
            (ups ++ [u])
       ++ call_if (has_onEnd o)
            (onPinchEnd (PrimFloat.mul (scale s) u)).
Proof.
  cbn zeta. cbn [handle fst snd]. rewrite handle_app. cbn [fst snd].
  destruct (pinch_updates_from_saved o ups u
              (fst (pinch_handler o s pinch_start))) as [Hs Hc].
  cbn zeta in Hs, Hc. rewrite Hs, Hc. cbn.
  rewrite app_nil_r. split; reflexivity.
Qed.

(** X16: whatever the recognizers report and in whatever order, a pan
    never touches the scale or the saved scale, and a pinch never touches
    the position or the saved position. *)
Theorem gestures_keep_to_their_values (o : Handlers) (s : Shared) :
  (forall es : list PanEvent,
      scale (fst (handle (pan_handler o) es s)) = scale s
      /\ savedScale (fst (handle (pan_handler o) es s)) = savedScale s)
  /\ (forall es : list PinchEvent,
        let s' := fst (handle (pinch_handler o) es s) in
        translateX s' = translateX s
        /\ translateY s' = translateY s
        /\ savedTranslateX s' = savedTranslateX s
        /\ savedTranslateY s' = savedTranslateY s).
Proof.
  split.
  - intros es. revert s.
    induction es as [|e es IH]; intros s; [ split; reflexivity | ].
    cbn [handle fst].
    destruct (IH (fst (pan_handler o s e))) as [H1 H2].
    rewrite H1, H2. destruct e; split; reflexivity.
  - intros es. revert s.
    induction es as [|e es IH]; intros s; [ repeat split | ].
    cbn zeta. cbn [handle fst].
    destruct (IH (fst (pinch_handler o s e))) as (H1 & H2 & H3 & H4).
    cbn zeta in H1, H2, H3, H4.
    rewrite H1, H2, H3, H4. destruct e; repeat split.
Qed.

(** X17: [reset] writes the saved values 0, 0 and 1, leaves position
    and scale where they are at the call and starts a spring to 0, 0 and 1
    on them.  The next gesture overwrites what it wrote: for a pan that
    follows, the saved position that [reset] wrote is as good as any
    other, and so is the saved scale for a pinch. *)
Theorem reset_saved_values_are_overwritten (o : Handlers) (s : Shared) :
  fst (reset s)
  = mkShared (translateX s) (translateY s) (scale s) 0%float 0%float 1%float
  /\ map snd (snd (reset s))
     = [ Worklet.withSpring 0%float None; Worklet.withSpring 0%float None;
         Worklet.withSpring 1%float None ]
  /\ (forall (a b : number) (es : list PanEvent),
        handle (pan_handler o) (pan_start :: es) (fst (reset s))
        = handle (pan_handler o) (pan_start :: es)
            (mkShared (translateX s) (translateY s) (scale s) a b 1%float))
  /\ (forall (c : number) (es : list PinchEvent),
        handle (pinch_handler o) (pinch_start :: es) (fst (reset s))
        = handle (pinch_handler o) (pinch_start :: es)
            (mkShared (translateX s) (translateY s) (scale s)
               0%float 0%float c)).
Proof. repeat split. Qed.

Lemma no_handlers_no_calls (E : Type)
    (handler : Shared -> E -> Shared * list JsCall)
    (Hquiet : forall s e, snd (handler s e) = []) (es : list E) :
  forall s, snd (handle handler es s) = [].
Proof.
  induction es as [|e es IH]; intros s; [ reflexivity | ].
  cbn [handle snd]. rewrite Hquiet, IH. reflexivity.
Qed.

(** X18: without handlers nothing is ever posted to the JavaScript
    thread, whatever the recognizers report: not by a pan, not by a
    pinch, and not by a tap or a long press, which without options wait
    for one tap of at most 500 ms and for a press of at least 500 ms. *)
Theorem gestures_without_handlers_are_silent (s : Shared) :
  let none := mkHandlers false false false in
  (forall es, snd (handle (pan_handler none) es s) = [])
  /\ (forall es, snd (handle (pinch_handler none) es s) = [])
  /\ (forall n d, tap_onStart
                    (createTapGesture (Some (mkTapOptions n d false))) = [])
  /\ (forall d, lp_onStart
                  (createLongPressGesture
                     (Some (mkLongPressOptions d false))) = [])
  /\ createTapGesture None = mkTapGesture 1%float 500%float []
  /\ createLongPressGesture None = mkLongPressGesture 500%float [].
Proof.
  cbn zeta. split; [ | split; [ | repeat split ] ].
  - intros es. apply no_handlers_no_calls. intros s0 [| |]; reflexivity.
  - intros es. apply no_handlers_no_calls. intros s0 [| |]; reflexivity.
Qed.

End Gestures.

(** ** The readiness gate: which frames count *)

Section GateFrames.
Import ReanimatedReady.

Lemma run_app (es es' : list Event) (w : World) :
  run (es ++ es') w = run es' (run es w).
Proof. unfold run. apply fold_left_app. Qed.

(** While the timer waits, a frame changes nothing. *)
Lemma frames_during_delay (c : Copy) (k : nat) :
  run (repeat frame k) (mount c) = mount c.
Proof.
  induction k as [|k IH]; [ reflexivity | ].
  cbn [repeat run fold_left]. exact IH.
Qed.

Lemma timer_fires (c : Copy) (ms : N) :
  (delay c <= ms)%N ->
  step (mount c) (elapse ms)
  = invoke (mkWorld ms [] 1 [] true false (Some 0) []) (on_timeout c).
Proof.
  intros Hms. cbn. unfold is_due. cbn.
  rewrite (proj2 (N.leb_le (delay c) ms) Hms). reflexivity.
Qed.

Lemma ready_stays (w : World) (j : nat) :
  timers w = [] -> frame_queue w = [] -> isReady w = true ->
  isReady (run (repeat frame j) w) = true.
Proof.
  intros Ht Hq Hr.
  destruct (run_quiet (repeat frame j) w Ht Hq) as [_ H].
  rewrite H. exact Hr.
Qed.

(** X20: the frames the gate waits for are counted from the moment the
    timer fires.  For each copy, after any number of frames during the
    delay, an elapse that reaches the delay and [j] more frames, the flag
    is true exactly when [j] is at least the number of frames the copy
    nests (3, 5 and 4). *)
Theorem gate_counts_frames_after_timeout (c : Copy) (k j : nat) (ms : N)
    (Hc : In c copies) (Hms : (delay c <= ms)%N) :
  isReady (run (repeat frame k ++ elapse ms :: repeat frame j) (mount c))
  = Nat.leb (depth (on_timeout c)) j.
Proof.
  rewrite run_app, frames_during_delay.
  cbn [run fold_left]. rewrite (timer_fires c Hms).
  cbn in Hc. destruct Hc as [<-|[<-|[<-|[]]]].
  - do 3 (destruct j as [|j]; [ reflexivity | ]).
    apply (ready_stays _ j); reflexivity.
  - do 5 (destruct j as [|j]; [ reflexivity | ]).
    apply (ready_stays _ j); reflexivity.
  - do 4 (destruct j as [|j]; [ reflexivity | ]).
    apply (ready_stays _ j); reflexivity.
Qed.

Lemma gate_counts_frames_after_timeout_witness :
  isReady (run (repeat frame 7 ++ elapse 640 :: repeat frame 2)
             (mount useReanimatedReady)) = false
  /\ isReady (run (repeat frame 7 ++ elapse 640 :: repeat frame 3)
                (mount useReanimatedReady)) = true.
Proof.
  split.
  - apply (@gate_counts_frames_after_timeout useReanimatedReady 7 2 640%N).
    + left. reflexivity.
    + cbn. lia.
  - apply (@gate_counts_frames_after_timeout useReanimatedReady 7 3 640%N).
    + left. reflexivity.
    + cbn. lia.
Defined.

End GateFrames.

(** ** Unmounting before the timer fires *)

Section EarlyUnmount.
Import ReanimatedReady GateStates.

Lemma mount_untouched (c : Copy) : untouched c (mount c).
Proof.
  repeat split. right. exists 0. repeat split.
Qed.

Lemma step_untouched (c : Copy) (w : World) (e : Event) :
  untouched c w ->
  (now (step w e) < delay c)%N ->
  untouched c (step w e).
Proof.
  intros (Hf & Hr & Hq & Ht) Hnow. rewrite step_now in Hnow.
  destruct e as [ms| |]; cbn [step].
  - destruct Ht as [Ht|(id & Ht & Hm & Hc)]; rewrite Ht; cbn.
    + repeat split; auto.
    + unfold is_due. cbn.
      destruct (N.leb_spec (delay c) (now w + ms)) as [H|H]; [ lia | ].
      cbn. repeat split; auto. right. exists id. auto.
  - rewrite Hq. cbn. repeat split; auto.
  - destruct (mounted w) eqn:Hm.
    2: { repeat split; auto.
         destruct Ht as [Ht|(id & _ & Hm' & _)];
           [ left; exact Ht | discriminate ]. }
    destruct Ht as [Ht|(id & Ht & _ & Hc)].
    + destruct (cleanup w); cbn; rewrite ?Ht; cbn; repeat split; auto.
    + rewrite Hc. cbn. rewrite Ht. cbn. rewrite Nat.eqb_refl. cbn.
      repeat split; auto.
Qed.

Lemma run_untouched (c : Copy) (es : list Event) :
  forall w,
    untouched c w ->
    (now w + elapsed es < delay c)%N ->
    untouched c (run es w).
Proof.
  induction es as [|e es IH]; intros w Hw Hnow; [ exact Hw | ].
  cbn [run fold_left]. fold (run es (step w e)).
  cbn [elapsed fold_right] in Hnow. fold (elapsed es) in Hnow.
  assert (Hstep : (now (step w e) + elapsed es < delay c)%N).
  { rewrite step_now. destruct e; lia. }
  apply IH; [ | exact Hstep ].
  apply step_untouched; [ exact Hw | lia ].
Qed.

(** X19: whatever happened before (time passing in any number of steps,
    frames), a component that unmounts while less than the delay has
    elapsed never has its setter called, and its flag stays false through
    everything that follows: as long as the timer is waiting, the
    cleanup's [clearTimeout] cancels the pending transition. *)
Theorem unmount_before_timeout_cancels (c : Copy) (es es' : list Event)
    (Hearly : (elapsed es < delay c)%N) :
  flips (run (es ++ unmount :: es') (mount c)) = []
  /\ isReady (run (es ++ unmount :: es') (mount c)) = false.
Proof.
  unfold run. rewrite fold_left_app. fold (run es (mount c)).
  cbn [fold_left]. fold (run es' (step (run es (mount c)) unmount)).
  destruct (run_untouched es (mount_untouched c)) as (Hf & Hr & Hq & Ht).
  { cbn. lia. }
  set (w := run es (mount c)) in *.
  assert (Hu : timers (step w unmount) = []
               /\ frame_queue (step w unmount) = []
               /\ flips (step w unmount) = []
               /\ isReady (step w unmount) = false).
  { cbn [step]. destruct (mounted w) eqn:Hm.
    - destruct Ht as [Ht|(id & Ht & _ & Hc)].
      + destruct (cleanup w); cbn; rewrite ?Ht; cbn; auto.
      + rewrite Hc. cbn. rewrite Ht. cbn. rewrite Nat.eqb_refl. cbn. auto.
    - destruct Ht as [Ht|(id & _ & Hm' & _)]; [ auto | congruence ]. }
  destruct Hu as (Ht' & Hq' & Hf' & Hr').
  destruct (run_quiet es' (step w unmount) Ht' Hq') as [H1 H2].
  rewrite H1, H2. auto.
Qed.

Lemma unmount_before_timeout_cancels_witness :
  flips (run ([ elapse 200; frame; elapse 250; frame; frame ]
              ++ unmount :: [ elapse 1000; frame; frame; frame; frame ])
           (mount useReanimatedReady)) = [].
Proof.
  apply (@unmount_before_timeout_cancels useReanimatedReady
           [ elapse 200; frame; elapse 250; frame; frame ]
           [ elapse 1000; frame; frame; frame; frame ]).
  cbn. lia.
Defined.

End EarlyUnmount.
